(** * The filename-inference engine of the anime rename bot

    A shallow embedding of [AnimeRenameBot.extract_anime_info] and
    [AnimeRenameBot.generate_new_filename] (anime_rename_bot.py), with the
    library routines they call: [os.path.splitext], [str.strip],
    [str.zfill], [re.search] and [re.sub]; and of their two callers,
    [handle_text] and the part of [handle_document] that comes before the
    download.

    A Python [str] is a sequence of code points.  Characters are modelled by
    [ascii], read as the code points U+0000 to U+00FF, and the character
    classes below are Python's on that range. *)

From Stdlib Require Import String Ascii List Bool Arith ZArith Lia.
Import ListNotations.

(** ** Strings and characters *)

Definition str := list ascii.

(** A string literal of the source. *)
Definition lit (s : string) : str := list_ascii_of_string s.

Definition code (c : ascii) : nat := nat_of_ascii c.

Definition between (lo hi n : nat) : bool := (lo <=? n) && (n <=? hi).

(** [str.isspace] on one character, which is also the class [\s]. *)
Definition is_space (c : ascii) : bool :=
  let n := code c in
  between 9 13 n || between 28 32 n || (n =? 133) || (n =? 160).

(** The class [\d]: decimal digits. *)
Definition is_digit (c : ascii) : bool := between 48 57 (code c).

(** The class [\w], which decides [\b]: alphanumerics and the underscore. *)
Definition is_word (c : ascii) : bool :=
  let n := code c in
  between 48 57 n || between 65 90 n || (n =? 95) || between 97 122 n
  || (n =? 170) || between 178 179 n || (n =? 181) || between 185 186 n
  || between 188 190 n || between 192 214 n || between 216 246 n
  || between 248 255 n.

(** Lower-casing of one character, as IGNORECASE applies it. *)
Definition lower (c : ascii) : ascii :=
  let n := code c in
  if between 65 90 n || (between 192 222 n && negb (n =? 215))
  then ascii_of_nat (n + 32) else c.

Definition dot : ascii := "."%char.
Definition slash : ascii := "/"%char.
Definition zero : ascii := "0"%char.
Definition newline : ascii := ascii_of_nat 10.

(** ** [str.strip] and [str.zfill] *)

Fixpoint lstrip (s : str) : str :=
  match s with
  | c :: t => if is_space c then lstrip t else s
  | [] => []
  end.

Definition rstrip (s : str) : str := rev (lstrip (rev s)).

Definition strip (s : str) : str := rstrip (lstrip s).

Definition is_sign (c : ascii) : bool :=
  Ascii.eqb c "+"%char || Ascii.eqb c "-"%char.

(** [s.zfill(width)]: zeros go in front, but behind a leading sign. *)
Definition zfill (width : nat) (s : str) : str :=
  if width <=? length s then s
  else
    let fill := repeat zero (width - length s) in
    match s with
    | c :: t => if is_sign c then c :: fill ++ t else fill ++ s
    | [] => fill
    end.

(** ** [os.path.splitext]

    [posixpath.splitext p] is [genericpath._splitext p sep altsep extsep]
    with [sep = "/"], no [altsep] and [extsep = "."]. *)

(** [s.rfind(c)] for a one-character needle: the last index, or -1. *)
Fixpoint rfind_from (c : ascii) (s : str) (i : Z) (found : Z) : Z :=
  match s with
  | [] => found
  | x :: t => rfind_from c t (i + 1) (if Ascii.eqb x c then i else found)
  end.

Definition rfind (c : ascii) (s : str) : Z := rfind_from c s 0 (-1).

(** The slices [p[:i]] and [p[i:]] for an index [0 <= i]. *)
Definition slice_to (p : str) (i : Z) : str := firstn (Z.to_nat i) p.
Definition slice_from (p : str) (i : Z) : str := skipn (Z.to_nat i) p.

(** The loop that skips leading dots: [true] when some index in
    [filenameIndex, dotIndex) holds a character other than [extsep]. *)
Fixpoint skip_dots (extsep : ascii) (p : str) (filenameIndex : Z) (steps : nat)
  : bool :=
  match steps with
  | O => false
  | S k =>
      match nth_error p (Z.to_nat filenameIndex) with
      | Some c =>
          if negb (Ascii.eqb c extsep) then true
          else skip_dots extsep p (filenameIndex + 1) k
      | None => true
      end
  end.

Definition _splitext (p : str) (sep : ascii) (altsep : option ascii)
  (extsep : ascii) : str * str :=
  let sepIndex :=
    match altsep with
    | Some a => Z.max (rfind sep p) (rfind a p)
    | None => rfind sep p
    end in
  let dotIndex := rfind extsep p in
  if (sepIndex <? dotIndex)%Z
     && skip_dots extsep p (sepIndex + 1) (Z.to_nat (dotIndex - (sepIndex + 1)))
  then (slice_to p dotIndex, slice_from p dotIndex)
  else (p, []).

Definition splitext (p : str) : str * str := _splitext p slash None dot.

(** ** Regular expressions

    The patterns of the source use literals, classes, sequence, alternation,
    capture groups, [$], [\b], and repetition of one-character items only
    ([x*], [x+], [x*?], [x+?]), which is what this syntax covers. *)

Inductive cset : Type :=
| CAny                      (* [.], anything but a newline *)
| CDigit                    (* [\d] *)
| CSpace                    (* [\s] *)
| CIn (l : list ascii)      (* [[...]] *)
| CLit (c : ascii).         (* a literal character *)

Inductive regex : Type :=
| Eps
| One (cs : cset)
| Seq (a b : regex)
| Alt (a b : regex)
| Grp (n : nat) (a : regex)
| Rep (greedy : bool) (lo : nat) (cs : cset)
| AtEnd                     (* [$] *)
| Boundary.                 (* [\b] *)

(** Whether one character is in a class; [ic] is the IGNORECASE flag. *)
Definition cmatch (ic : bool) (cs : cset) (c : ascii) : bool :=
  match cs with
  | CAny => negb (Ascii.eqb c newline)
  | CDigit => is_digit c
  | CSpace => is_space c
  | CIn l =>
      existsb (fun x => if ic then Ascii.eqb (lower c) (lower x)
                        else Ascii.eqb c x) l
  | CLit x => if ic then Ascii.eqb (lower c) (lower x) else Ascii.eqb c x
  end.

(** The state of a match attempt: the character before the current
    position, the text from the current position on, and the text captured
    by each group closed so far. *)
Record mstate : Type := MState {
  prev : option ascii;
  rest : str;
  marks : nat -> option str
}.

Definition no_marks : nat -> option str := fun _ => None.

Definition set_mark (n : nat) (v : str) (st : mstate) : mstate :=
  MState (prev st) (rest st)
         (fun i => if Nat.eqb i n then Some v else marks st i).

(** The text between two positions of one attempt. *)
Definition consumed (st st' : mstate) : str :=
  firstn (length (rest st) - length (rest st')) (rest st).

Definition at_end (s : str) : bool :=
  match s with
  | [] => true
  | [c] => Ascii.eqb c newline
  | _ => false
  end.

Definition word_before (p : option ascii) : bool :=
  match p with Some c => is_word c | None => false end.

Definition word_here (s : str) : bool :=
  match s with c :: _ => is_word c | [] => false end.

Definition at_boundary (p : option ascii) (s : str) : bool :=
  negb (Bool.eqb (word_here s) (word_before p)).

Definition cont : Type := mstate -> option mstate.

(** Greedy repetition of a class: take as many characters as match, then
    give back one at a time until the continuation succeeds; [n] counts the
    characters taken. *)
Fixpoint rep_greedy (ic : bool) (cs : cset) (lo : nat) (s : str)
  (p : option ascii) (g : nat -> option str) (n : nat) (k : cont)
  : option mstate :=
  let stop := if lo <=? n then k (MState p s g) else None in
  match s with
  | c :: t =>
      if cmatch ic cs c then
        match rep_greedy ic cs lo t (Some c) g (S n) k with
        | Some r => Some r
        | None => stop
        end
      else stop
  | [] => stop
  end.

(** Lazy repetition: try the continuation first, take one more character
    only when it fails. *)
Fixpoint rep_lazy (ic : bool) (cs : cset) (lo : nat) (s : str)
  (p : option ascii) (g : nat -> option str) (n : nat) (k : cont)
  : option mstate :=
  match (if lo <=? n then k (MState p s g) else None) with
  | Some r => Some r
  | None =>
      match s with
      | c :: t =>
          if cmatch ic cs c then rep_lazy ic cs lo t (Some c) g (S n) k
          else None
      | [] => None
      end
  end.

(** The backtracking matcher: [k] is what remains to be matched. *)
Fixpoint run (ic : bool) (r : regex) (st : mstate) (k : cont)
  : option mstate :=
  match r with
  | Eps => k st
  | One cs =>
      match rest st with
      | c :: t =>
          if cmatch ic cs c then k (MState (Some c) t (marks st)) else None
      | [] => None
      end
  | Seq a b => run ic a st (fun st' => run ic b st' k)
  | Alt a b =>
      match run ic a st k with
      | Some r => Some r
      | None => run ic b st k
      end
  | Grp n a => run ic a st (fun st' => k (set_mark n (consumed st st') st'))
  | Rep true lo cs => rep_greedy ic cs lo (rest st) (prev st) (marks st) 0 k
  | Rep false lo cs => rep_lazy ic cs lo (rest st) (prev st) (marks st) 0 k
  | AtEnd => if at_end (rest st) then k st else None
  | Boundary => if at_boundary (prev st) (rest st) then k st else None
  end.

(** A compiled pattern: the expression and the IGNORECASE flag. *)
Record pattern : Type := Pattern { body : regex; ignorecase : bool }.

(** [pattern.groups]: the number of capture groups. *)
Fixpoint groups (r : regex) : nat :=
  match r with
  | Seq a b | Alt a b => Nat.max (groups a) (groups b)
  | Grp n a => Nat.max n (groups a)
  | _ => 0
  end.

(** One attempt at the position [(p, s)]; with [must_advance] an empty
    match is refused. *)
Definition match_here (pat : pattern) (p : option ascii) (s : str)
  (must_advance : bool) : option mstate :=
  run (ignorecase pat) (body pat) (MState p s no_marks)
      (fun st =>
         if must_advance && (length (rest st) =? length s) then None
         else Some st).

(** A match object: the text before the match, the matched text, the text
    after it, the groups, and how many groups the pattern has. *)
Record rmatch : Type := RMatch {
  m_pre : str;
  m_text : str;
  m_post : str;
  m_marks : nat -> option str;
  m_groups : nat
}.

(** The scan of [re.search]: the leftmost position where an attempt
    succeeds. *)
Fixpoint search_from (pat : pattern) (p : option ascii) (s : str)
  : option (str * mstate * str) :=
  match match_here pat p s false with
  | Some st => Some ([], st, s)
  | None =>
      match s with
      | c :: t =>
          match search_from pat (Some c) t with
          | Some (pre, st, s0) => Some (c :: pre, st, s0)
          | None => None
          end
      | [] => None
      end
  end.

Definition re_search (pat : pattern) (s : str) : option rmatch :=
  match search_from pat None s with
  | Some (pre, st, s0) =>
      Some (RMatch pre (firstn (length s0 - length (rest st)) s0) (rest st)
                   (marks st) (groups (body pat)))
  | None => None
  end.

(** Exceptions of the modelled code. *)
Inductive exn : Type := IndexError | AttributeError.

Inductive res (A : Type) : Type :=
| Ok (a : A)
| Raise (e : exn).
Arguments Ok {A} a.
Arguments Raise {A} e.

Definition bind {A B : Type} (x : res A) (f : A -> res B) : res B :=
  match x with Ok a => f a | Raise e => Raise e end.

Notation "x <- e ;; k" := (bind e (fun x => k))
  (at level 61, e at next level, right associativity).

(** [match.group(n)] for [1 <= n]: [None] for a group that took no part,
    IndexError for a group the pattern does not have. *)
Definition group (m : rmatch) (n : nat) : res (option str) :=
  if n <=? m_groups m then Ok (m_marks m n) else Raise IndexError.

(** [re.sub(pat, repl, s)] with a constant replacement.  [skip] counts the
    characters of [s] that still belong to the match just replaced.  After
    an empty match the same position is tried again for a non-empty one. *)
Fixpoint sub_scan (pat : pattern) (repl : str) (p : option ascii) (s : str)
  (skip : nat) : str :=
  match skip, s with
  | S k, c :: t => sub_scan pat repl (Some c) t k
  | S _, [] => []
  | O, _ =>
      let copy :=
        match s with
        | c :: t => c :: sub_scan pat repl (Some c) t 0
        | [] => []
        end in
      let replace (st : mstate) :=
        match s with
        | c :: t =>
            repl ++ sub_scan pat repl (Some c) t
                             (length s - length (rest st) - 1)
        | [] => repl
        end in
      match match_here pat p s false with
      | None => copy
      | Some st =>
          if length (rest st) <? length s then replace st
          else
            repl ++
            match match_here pat p s true with
            | Some st' => replace st'
            | None => copy
            end
      end
  end.

Definition re_sub (pat : pattern) (repl : str) (s : str) : str :=
  sub_scan pat repl None s 0.

(** ** The patterns of the source *)

Fixpoint seq (l : list regex) : regex :=
  match l with
  | [] => Eps
  | [r] => r
  | r :: t => Seq r (seq t)
  end.

Definition chr (c : ascii) : regex := One (CLit c).
Definition word (s : string) : regex := seq (map chr (lit s)).
Definition star (cs : cset) : regex := Rep true 0 cs.
Definition plus (cs : cset) : regex := Rep true 1 cs.
Definition lazy_star (cs : cset) : regex := Rep false 0 cs.
Definition lazy_plus (cs : cset) : regex := Rep false 1 cs.

Definition quote : ascii := ascii_of_nat 34.
Definition backslash : ascii := ascii_of_nat 92.

(** [\[.*?\]\s*(.+?)\s*-\s*(\d+)] *)
Definition subgroup_re : regex :=
  seq [chr "["; lazy_star CAny; chr "]"; star CSpace;
       Grp 1 (lazy_plus CAny); star CSpace; chr "-"; star CSpace;
       Grp 2 (plus CDigit)].

(** [(.+?)\.(?:S\d+E(\d+)|Episode\.(\d+))] *)
Definition dotted_re : regex :=
  seq [Grp 1 (lazy_plus CAny); chr ".";
       Alt (seq [chr "S"; plus CDigit; chr "E"; Grp 2 (plus CDigit)])
           (seq [word "Episode"; chr "."; Grp 3 (plus CDigit)])].

(** [(.+?)\s+Episode\s+(\d+)] *)
Definition episode_re : regex :=
  seq [Grp 1 (lazy_plus CAny); plus CSpace; word "Episode"; plus CSpace;
       Grp 2 (plus CDigit)].

(** [(.+?)\s*-\s*(\d+)] *)
Definition dash_re : regex :=
  seq [Grp 1 (lazy_plus CAny); star CSpace; chr "-"; star CSpace;
       Grp 2 (plus CDigit)].

(** [(.+?)\s+(\d+)(?:\s|$)] *)
Definition trailing_re : regex :=
  seq [Grp 1 (lazy_plus CAny); plus CSpace; Grp 2 (plus CDigit);
       Alt (One CSpace) AtEnd].

(** The list [patterns], each searched with [re.IGNORECASE]. *)
Definition patterns : list pattern :=
  map (fun r => Pattern r true)
      [subgroup_re; dotted_re; episode_re; dash_re; trailing_re].

(** [[\.\-_]+] *)
Definition separators_re : pattern :=
  Pattern (plus (CIn ["."; "-"; "_"]%char)) false.

(** [\s+] *)
Definition spaces_re : pattern := Pattern (plus CSpace) false.

(** [\b(720p|1080p|480p|BD|BluRay|WEB|HDTV)\b], with [re.IGNORECASE] *)
Definition quality_re : pattern :=
  Pattern
    (seq [Boundary;
          Grp 1 (Alt (word "720p") (Alt (word "1080p") (Alt (word "480p")
                (Alt (word "BD") (Alt (word "BluRay") (Alt (word "WEB")
                     (word "HDTV")))))));
          Boundary])
    true.

(** The characters of the class that the last [re.sub] deletes: the angle
    brackets, colon, double quote, slash, backslash, bar, question mark and
    star. *)
Definition invalid_chars : list ascii :=
  ["<"; ">"; ":"; quote; "/"; backslash; "|"; "?"; "*"]%char.

Definition invalid_re : pattern := Pattern (One (CIn invalid_chars)) false.

(** ** The two operations *)

(** Truth value of an optional string: [None] and [""] are false. *)
Definition truthy (v : option str) : bool :=
  match v with
  | Some (_ :: _) => true
  | _ => false
  end.

(** [m.group(a) or m.group(b)]: the second is evaluated only when the
    first is false. *)
Definition group_or (m : rmatch) (a b : nat) : res (option str) :=
  x <- group m a ;;
  if truthy x then Ok x else group m b.

(** [v.strip()] on the result of [group]: [None] has no such method. *)
Definition strip_opt (v : option str) : res str :=
  match v with
  | Some s => Ok (strip s)
  | None => Raise AttributeError
  end.

(** The clean-up of the captured name, in its two stages: separators and
    whitespace first, quality indicators second. *)
Definition tidy_separators (anime_name : str) : str :=
  let anime_name := re_sub separators_re (lit " ") anime_name in
  strip (re_sub spaces_re (lit " ") anime_name).

Definition drop_quality (anime_name : str) : str :=
  let anime_name := re_sub quality_re [] anime_name in
  strip anime_name.

Definition clean_name (anime_name : str) : str :=
  drop_quality (tidy_separators anime_name).

(** The body of the [for pattern in patterns] loop at a match. *)
Definition on_match (m : rmatch) : res (str * option str) :=
  g <- group m 1 ;;
  anime_name <- strip_opt g ;;
  episode <- group_or m 2 3 ;;
  Ok (clean_name anime_name, episode).

Fixpoint for_patterns (ps : list pattern) (name : str)
  : res (str * option str) :=
  match ps with
  | pat :: ps' =>
      match re_search pat name with
      | Some m => on_match m
      | None => for_patterns ps' name
      end
  | [] => Ok (name, None)
  end.

Definition extract_anime_info (filename : str) : res (str * option str) :=
  let name := fst (splitext filename) in
  for_patterns patterns name.

(** The value of [new_filename] before the invalid characters go. *)
Definition new_filename_of (anime_name : str) (episode : option str)
  (original_filename : str) : str :=
  let extension := snd (splitext original_filename) in
  match episode with
  | Some (c :: t) =>
      let episode_num := zfill 2 (c :: t) in
      anime_name ++ lit " - Episode " ++ episode_num ++ extension
  | _ => anime_name ++ extension
  end.

Definition generate_new_filename (anime_name : str) (episode : option str)
  (original_filename : str) : str :=
  re_sub invalid_re []
         (new_filename_of anime_name episode original_filename).

(** ** The callers: [handle_document] and [handle_text]

    Both pass a file name through [extract_anime_info] and then, with the
    same file name, through [generate_new_filename]. *)

Definition renamed (file_name : str) : res str :=
  r <- extract_anime_info file_name ;;
  let (anime_name, episode) := r in
  Ok (generate_new_filename anime_name episode file_name).

Fixpoint str_eqb (a b : str) : bool :=
  match a, b with
  | [], [] => true
  | x :: a', y :: b' => Ascii.eqb x y && str_eqb a' b'
  | _, _ => false
  end.

(** [s.lower()], [s.startswith(prefix)] and [s.endswith(suffix)]. *)
Definition str_lower (s : str) : str := map lower s.

Definition startswith (s prefix : str) : bool :=
  str_eqb (firstn (length prefix) s) prefix.

Definition endswith (s suffix : str) : bool :=
  (length suffix <=? length s)
  && str_eqb (skipn (length s - length suffix) s) suffix.

Definition video_extensions : list str :=
  map lit [".mkv"; ".mp4"; ".avi"; ".mov"; ".wmv"; ".flv"; ".webm"]%string.

(** [any(file_name.lower().endswith(ext) for ext in video_extensions)] *)
Definition is_video (file_name : str) : bool :=
  existsb (fun ext => endswith (str_lower file_name) ext) video_extensions.

(** [file_size > 1000 * 1024 * 1024] *)
Definition too_large (file_size : Z) : bool :=
  (1000 * 1024 * 1024 <? file_size)%Z.

(** What [handle_document] settles before it downloads anything: a refusal
    with its message, or the two paths of the [os.rename] and the name sent
    back.  The download, the rename itself and the upload are not modelled;
    an exception in this part would be caught by the handler. *)
Inductive document_plan : Type :=
| Refuse (message : str)
| Rename (temp_path new_path new_filename : str).

Definition handle_document_plan (file_name : str) (file_size : Z)
  : res document_plan :=
  if negb (is_video file_name) then
    Ok (Refuse (lit "Please send a video file (.mkv, .mp4, .avi, etc.)"))
  else if too_large file_size then
    Ok (Refuse
          (lit "File is too large. Please send files smaller than 50MB."))
  else
    new_filename <- renamed file_name ;;
    let temp_path := lit "temp/" ++ file_name in
    let new_path := lit "temp/" ++ new_filename in
    Ok (Rename temp_path new_path new_filename).

(** [episode if episode else 'Not detected'] *)
Definition episode_shown (episode : option str) : str :=
  match episode with
  | Some (c :: t) => c :: t
  | _ => lit "Not detected"
  end.

(** The f-string [response]. *)
Definition response (filename anime_name : str) (episode : option str)
  (new_filename : str) : str :=
  [newline] ++ lit "**Original:** `" ++ filename ++ lit "`" ++ [newline]
  ++ lit "**Detected Anime:** " ++ anime_name ++ [newline]
  ++ lit "**Episode:** " ++ episode_shown episode ++ [newline]
  ++ lit "**New Filename:** `" ++ new_filename ++ lit "`" ++ [newline]
  ++ lit "            ".

(** [handle_text]: the text it passes to [reply_text]. *)
Definition handle_text (text : str) : res str :=
  if startswith text (lit "test:") then
    let filename := strip (skipn 5 text) in
    r <- extract_anime_info filename ;;
    let (anime_name, episode) := r in
    let new_filename := generate_new_filename anime_name episode filename in
    Ok (response filename anime_name episode new_filename)
  else
    Ok (lit "Send me an anime file to rename, or use 'test: filename' to test parsing.").

(** ** What a successful attempt means

    [matches ic r st st']: the expression [r] can take the attempt from
    [st] to [st'].  The matcher only returns results that this relation
    allows ([run_sound] below). *)

Definition prev_after (p : option ascii) (taken : str) : option ascii :=
  last (map Some taken) p.

Inductive matches (ic : bool) : regex -> mstate -> mstate -> Prop :=
| M_Eps st : matches ic Eps st st
| M_One cs c t p g :
    cmatch ic cs c = true ->
    matches ic (One cs) (MState p (c :: t) g) (MState (Some c) t g)
| M_Seq a b st1 st2 st3 :
    matches ic a st1 st2 -> matches ic b st2 st3 ->
    matches ic (Seq a b) st1 st3
| M_AltL a b st st' : matches ic a st st' -> matches ic (Alt a b) st st'
| M_AltR a b st st' : matches ic b st st' -> matches ic (Alt a b) st st'
| M_Grp n a st st' :
    matches ic a st st' ->
    matches ic (Grp n a) st (set_mark n (consumed st st') st')
| M_Rep gr lo cs p g taken s' :
    lo <= length taken ->
    Forall (fun c => cmatch ic cs c = true) taken ->
    matches ic (Rep gr lo cs) (MState p (taken ++ s') g)
            (MState (prev_after p taken) s' g)
| M_AtEnd st : at_end (rest st) = true -> matches ic AtEnd st st
| M_Boundary st :
    at_boundary (prev st) (rest st) = true -> matches ic Boundary st st.

(** The least number of characters a match of [r] takes. *)
Fixpoint min_len (r : regex) : nat :=
  match r with
  | One _ => 1
  | Seq a b => min_len a + min_len b
  | Alt a b => Nat.min (min_len a) (min_len b)
  | Grp _ a => min_len a
  | Rep _ lo _ => lo
  | Eps | AtEnd | Boundary => 0
  end.

(** Whether [r] has a group numbered [n]. *)
Fixpoint mentions (n : nat) (r : regex) : bool :=
  match r with
  | Seq a b | Alt a b => mentions n a || mentions n b
  | Grp m a => Nat.eqb n m || mentions n a
  | _ => false
  end.

(** A syntactic check: every match of [r] leaves group [n] holding a
    non-empty text. *)
Fixpoint closes (n : nat) (r : regex) : bool :=
  match r with
  | Seq a b => closes n b || (closes n a && negb (mentions n b))
  | Alt a b => closes n a && closes n b
  | Grp m a => if Nat.eqb n m then 1 <=? min_len a else closes n a
  | _ => false
  end.

(** A pattern on which the loop body cannot raise: group 1 always holds a
    text, and either there is a group 3 or group 2 always holds a non-empty
    text. *)
Definition body_safe (pat : pattern) : bool :=
  closes 1 (body pat)
  && ((3 <=? groups (body pat))
      || ((2 <=? groups (body pat)) && closes 2 (body pat))).

(** A second syntactic check: whatever group [n] holds after a match of
    [r] was taken by a repetition of [\d]. *)
Definition digit_rep (r : regex) : bool :=
  match r with
  | Rep _ _ CDigit => true
  | _ => false
  end.

Fixpoint digit_group (n : nat) (r : regex) : bool :=
  match r with
  | Seq a b | Alt a b => digit_group n a && digit_group n b
  | Grp m a => (if Nat.eqb n m then digit_rep a else true) && digit_group n a
  | _ => true
  end.

(** The rules with two capture groups. *)
Definition two_group_rules : list regex :=
  [subgroup_re; episode_re; dash_re; trailing_re].

(** ** Notions the properties are stated with *)

(** The match object the loop of [extract_anime_info] stops at, if any. *)
Fixpoint first_match (ps : list pattern) (name : str) : option rmatch :=
  match ps with
  | pat :: ps' =>
      match re_search pat name with
      | Some m => Some m
      | None => first_match ps' name
      end
  | [] => None
  end.

(** Removal of the reserved characters, as a filter. *)
Definition is_invalid (c : ascii) : bool :=
  existsb (fun x => Ascii.eqb c x) invalid_chars.

Definition remove_invalid (s : str) : str :=
  filter (fun c => negb (is_invalid c)) s.

(** Padding on the left with zeros up to a width. *)
Definition left_pad (width : nat) (s : str) : str :=
  repeat zero (width - length s) ++ s.

Definition starts_with_sign (s : str) : bool :=
  match s with
  | c :: _ => is_sign c
  | [] => false
  end.

(** Whitespace shape of a name. *)
Definition no_leading_space (s : str) : bool :=
  match s with
  | c :: _ => negb (is_space c)
  | [] => true
  end.

Definition no_trailing_space (s : str) : bool := no_leading_space (rev s).

(** Every whitespace character is a space that no whitespace follows. *)
Fixpoint single_spaced (s : str) : bool :=
  match s with
  | c :: t =>
      (if is_space c then Ascii.eqb c " "%char && no_leading_space t
       else true)
      && single_spaced t
  | [] => true
  end.

Definition normalised (s : str) : bool :=
  no_leading_space s && no_trailing_space s && single_spaced s.

(** The length of the longest prefix whose characters satisfy [f]. *)
Fixpoint run_len (f : ascii -> bool) (s : str) : nat :=
  match s with
  | c :: t => if f c then S (run_len f t) else 0
  | [] => 0
  end.

(** Replacing each maximal run of characters that satisfy [f] by [repl];
    [in_run] tells that the run the position is in was replaced already. *)
Fixpoint squeeze (f : ascii -> bool) (repl : str) (in_run : bool) (s : str)
  : str :=
  match s with
  | c :: t =>
      if f c then
        (if in_run then squeeze f repl true t
         else repl ++ squeeze f repl true t)
      else c :: squeeze f repl false t
  | [] => []
  end.

(** The split at the last occurrence of [d]: the text before it and the
    text from it on. *)
Fixpoint split_last (d : ascii) (p : str) : option (str * str) :=
  match p with
  | c :: t =>
      match split_last d t with
      | Some (a, b) => Some (c :: a, b)
      | None => if Ascii.eqb c d then Some ([], c :: t) else None
      end
  | [] => None
  end.

(** The last component of a path: what follows its last slash. *)
Definition last_component (p : str) : str :=
  match split_last slash p with
  | Some (_, _ :: b) => b
  | _ => p
  end.

(** The split that [splitext] makes, told without indices: at the last
    dot, when no slash follows that dot and a character other than a dot
    comes before it in the last component. *)
Definition split_extension (p : str) : str * str :=
  match split_last dot p with
  | Some (root, ext) =>
      if negb (existsb (Ascii.eqb slash) ext)
         && existsb (fun c => negb (Ascii.eqb c dot)) (last_component root)
      then (root, ext)
      else (p, [])
  | None => (p, [])
  end.

(** A third syntactic check: every match of [r] takes at least one decimal
    digit. *)
Fixpoint requires_digit (r : regex) : bool :=
  match r with
  | One CDigit => true
  | Rep _ lo CDigit => 1 <=? lo
  | Seq a b => requires_digit a || requires_digit b
  | Alt a b => requires_digit a && requires_digit b
  | Grp _ a => requires_digit a
  | _ => false
  end.

(** A fourth syntactic check: every match of [r] takes at least one
    character of the class [target]. *)
Definition cset_eqb (a b : cset) : bool :=
  match a, b with
  | CAny, CAny | CDigit, CDigit | CSpace, CSpace => true
  | CIn l, CIn l' => str_eqb l l'
  | CLit x, CLit y => Ascii.eqb x y
  | _, _ => false
  end.

Fixpoint requires (target : cset) (r : regex) : bool :=
  match r with
  | One cs => cset_eqb cs target
  | Rep _ lo cs => (1 <=? lo) && cset_eqb cs target
  | Seq a b => requires target a || requires target b
  | Alt a b => requires target a && requires target b
  | Grp _ a => requires target a
  | _ => false
  end.

(** Whether the first character of [s] satisfies [q]. *)
Definition head_is (q : ascii -> bool) (s : str) : bool :=
  match s with
  | c :: _ => q c
  | [] => false
  end.

(** Whether some character of [s] that satisfies [f] is directly followed
    by one that satisfies [q]. *)
Fixpoint followed (f q : ascii -> bool) (s : str) : bool :=
  match s with
  | c :: t => (f c && head_is q t) || followed f q t
  | [] => false
  end.

(** * Properties *)

(** ** The matcher *)

Section Matcher.

Variable ic : bool.

Lemma last_cons_default (A : Type) (l : list A) : forall a d,
  last (a :: l) d = last l a.
Proof.
  induction l as [|x l IH]; intros a d; [reflexivity|].
  change (last (a :: x :: l) d) with (last (x :: l) d).
  rewrite (IH x d), (IH x a). reflexivity.
Qed.

Lemma prev_after_snoc p c taken :
  prev_after (Some c) taken = prev_after p (c :: taken).
Proof.
  unfold prev_after. simpl map. symmetry. apply last_cons_default.
Qed.

Lemma rep_greedy_sound cs lo s : forall p g n k r,
  rep_greedy ic cs lo s p g n k = Some r ->
  exists taken s',
    s = taken ++ s' /\ Forall (fun c => cmatch ic cs c = true) taken
    /\ lo <= n + length taken
    /\ k (MState (prev_after p taken) s' g) = Some r.
Proof.
  induction s as [|c t IH]; intros p g n k r H; simpl in H.
  - destruct (lo <=? n) eqn:L; [|discriminate].
    apply Nat.leb_le in L. exists [], []. simpl. repeat split; auto; lia.
  - assert (Stop : (if lo <=? n then k (MState p (c :: t) g) else None) = Some r ->
                   exists taken s', c :: t = taken ++ s'
                     /\ Forall (fun c => cmatch ic cs c = true) taken
                     /\ lo <= n + length taken
                     /\ k (MState (prev_after p taken) s' g) = Some r).
    { intros H0. destruct (lo <=? n) eqn:L; [|discriminate].
      apply Nat.leb_le in L. exists [], (c :: t). simpl.
      repeat split; auto; lia. }
    destruct (cmatch ic cs c) eqn:C; [|auto].
    destruct (rep_greedy ic cs lo t (Some c) g (S n) k) eqn:G; [|auto].
    inversion H; subst. apply IH in G.
    destruct G as (taken & s' & E & F & L & K).
    exists (c :: taken), s'. subst t. simpl. repeat split; auto; try lia.
    rewrite <- prev_after_snoc. exact K.
Qed.

Lemma rep_lazy_sound cs lo s : forall p g n k r,
  rep_lazy ic cs lo s p g n k = Some r ->
  exists taken s',
    s = taken ++ s' /\ Forall (fun c => cmatch ic cs c = true) taken
    /\ lo <= n + length taken
    /\ k (MState (prev_after p taken) s' g) = Some r.
Proof.
  induction s as [|c t IH]; intros p g n k r H; simpl in H.
  - destruct (lo <=? n) eqn:L.
    + apply Nat.leb_le in L. exists [], []. simpl.
      destruct (k (MState p [] g)) eqn:K; [|discriminate].
      repeat split; auto; try lia. unfold prev_after. simpl. congruence.
    + discriminate.
  - destruct (if lo <=? n then k (MState p (c :: t) g) else None) eqn:K0.
    + inversion H; subst. destruct (lo <=? n) eqn:L; [|discriminate].
      apply Nat.leb_le in L. exists [], (c :: t). simpl.
      repeat split; auto; lia.
    + destruct (cmatch ic cs c) eqn:C; [|discriminate].
      apply IH in H. destruct H as (taken & s' & E & F & L & K).
      exists (c :: taken), s'. subst t. simpl. repeat split; auto; try lia.
      rewrite <- prev_after_snoc. exact K.
Qed.

(** Every result of the matcher is a result of the continuation at a state
    that the expression allows. *)
Lemma run_sound r : forall st k res,
  run ic r st k = Some res ->
  exists st', matches ic r st st' /\ k st' = Some res.
Proof.
  induction r as [|cs|a IHa b IHb|a IHa b IHb|n a IHa|gr lo cs| |];
    intros st k res H; simpl in H.
  - exists st. split; [constructor|exact H].
  - destruct st as [p s g]. simpl in H. destruct s as [|c t]; [discriminate|].
    destruct (cmatch ic cs c) eqn:C; [|discriminate].
    eexists. split; [constructor; exact C|exact H].
  - apply IHa in H. destruct H as (st1 & M1 & H).
    apply IHb in H. destruct H as (st2 & M2 & H).
    exists st2. split; [econstructor; eassumption|exact H].
  - destruct (run ic a st k) eqn:A.
    + inversion H; subst. apply IHa in A. destruct A as (st' & M & K).
      exists st'. split; [apply M_AltL; exact M|exact K].
    + apply IHb in H. destruct H as (st' & M & K).
      exists st'. split; [apply M_AltR; exact M|exact K].
  - apply IHa in H. destruct H as (st' & M & K).
    eexists. split; [apply M_Grp; exact M|exact K].
  - destruct st as [p s g]. simpl in H.
    assert (exists taken s', s = taken ++ s'
              /\ Forall (fun c => cmatch ic cs c = true) taken
              /\ lo <= 0 + length taken
              /\ k (MState (prev_after p taken) s' g) = Some res)
      as (taken & s' & E & F & L & K)
      by (destruct gr; [eapply rep_greedy_sound|eapply rep_lazy_sound];
          exact H).
    subst s. eexists. split; [apply M_Rep; [exact L|exact F]|exact K].
  - destruct (at_end (rest st)) eqn:E; [|discriminate].
    exists st. split; [constructor; exact E|exact H].
  - destruct (at_boundary (prev st) (rest st)) eqn:E; [|discriminate].
    exists st. split; [constructor; exact E|exact H].
Qed.

(** A match takes a prefix of the remaining text, of at least [min_len]
    characters. *)
Lemma matches_prefix r st st' :
  matches ic r st st' ->
  exists x, rest st = x ++ rest st' /\ min_len r <= length x.
Proof.
  induction 1; simpl.
  - exists []. split; [reflexivity|simpl; lia].
  - exists [c]. split; [reflexivity|simpl; lia].
  - destruct IHmatches1 as (x & E1 & L1). destruct IHmatches2 as (y & E2 & L2).
    exists (x ++ y). rewrite E1, E2, app_assoc, length_app.
    split; [reflexivity|lia].
  - destruct IHmatches as (x & E & L). exists x. split; [exact E|lia].
  - destruct IHmatches as (x & E & L). exists x. split; [exact E|lia].
  - exact IHmatches.
  - exists taken. split; [reflexivity|assumption].
  - exists []. split; [reflexivity|simpl; lia].
  - exists []. split; [reflexivity|simpl; lia].
Qed.

Lemma consumed_prefix st st' x :
  rest st = x ++ rest st' -> consumed st st' = x.
Proof.
  intros E. unfold consumed. rewrite E, length_app.
  replace (length x + length (rest st') - length (rest st')) with (length x + 0)
    by lia.
  rewrite firstn_app_2. simpl. apply app_nil_r.
Qed.

(** A group the expression does not have keeps its text. *)
Lemma matches_frame n r st st' :
  matches ic r st st' -> mentions n r = false -> marks st' n = marks st n.
Proof.
  induction 1; simpl; intros Hn; try reflexivity.
  - apply orb_false_iff in Hn. destruct Hn as [Ha Hb].
    rewrite IHmatches2, IHmatches1; auto.
  - apply orb_false_iff in Hn. destruct Hn as [Ha Hb]. auto.
  - apply orb_false_iff in Hn. destruct Hn as [Ha Hb]. auto.
  - apply orb_false_iff in Hn. destruct Hn as [Hm Ha].
    rewrite Hm. auto.
Qed.

(** The syntactic check [closes] is right. *)
Lemma matches_closes n r st st' :
  matches ic r st st' -> closes n r = true ->
  exists t, marks st' n = Some t /\ t <> [].
Proof.
  induction 1; simpl; intros Hn; try discriminate.
  - apply orb_true_iff in Hn. destruct Hn as [Hb|Hab]; [auto|].
    apply andb_true_iff in Hab. destruct Hab as [Ha Hb].
    apply negb_true_iff in Hb.
    rewrite (matches_frame n _ _ _ H0 Hb). auto.
  - apply andb_true_iff in Hn. destruct Hn as [Ha Hb]. auto.
  - apply andb_true_iff in Hn. destruct Hn as [Ha Hb]. auto.
  - destruct (Nat.eqb n n0) eqn:E; [|auto].
    assert (1 <= min_len a) by (destruct (min_len a); [discriminate|lia]).
    destruct (matches_prefix _ _ _ H) as (x & Ex & Lx).
    exists x. rewrite (consumed_prefix st st' x Ex). split; [reflexivity|].
    intros ->. simpl in Lx. lia.
Qed.

End Matcher.

(** ** [re.search] *)

Lemma match_here_sound pat p s adv st :
  match_here pat p s adv = Some st ->
  matches (ignorecase pat) (body pat) (MState p s no_marks) st.
Proof.
  unfold match_here. intros H. apply run_sound in H.
  destruct H as (st' & M & K).
  destruct (adv && (length (rest st') =? length s)); [discriminate|].
  inversion K; subst. exact M.
Qed.

Lemma search_from_sound pat s : forall p pre st s0,
  search_from pat p s = Some (pre, st, s0) ->
  s = pre ++ s0 /\
  exists p', matches (ignorecase pat) (body pat) (MState p' s0 no_marks) st.
Proof.
  induction s as [|c t IH]; intros p pre st s0 H; simpl in H.
  - destruct (match_here pat p [] false) eqn:M; [|discriminate].
    inversion H; subst. split; [reflexivity|].
    exists p. apply (match_here_sound _ _ _ _ _ M).
  - destruct (match_here pat p (c :: t) false) eqn:M.
    + inversion H; subst. split; [reflexivity|].
      exists p. apply (match_here_sound _ _ _ _ _ M).
    + destruct (search_from pat (Some c) t) as [[[pre' st'] s0']|] eqn:S;
        [|discriminate].
      inversion H; subst. destruct (IH _ _ _ _ S) as [E X].
      split; [simpl; f_equal; exact E|exact X].
Qed.

Lemma re_search_sound pat s m :
  re_search pat s = Some m ->
  m_groups m = groups (body pat) /\
  exists p s0 st,
    matches (ignorecase pat) (body pat) (MState p s0 no_marks) st
    /\ m_marks m = marks st.
Proof.
  unfold re_search. intros H.
  destruct (search_from pat None s) as [[[pre st] s0]|] eqn:S; [|discriminate].
  inversion H; subst. simpl. split; [reflexivity|].
  destruct (search_from_sound _ _ _ _ _ _ S) as [_ [p M]].
  exists p, s0, st. split; [exact M|reflexivity].
Qed.

(** A group that [closes] vouches for holds a non-empty text in every
    match object. *)
Lemma re_search_closes pat s m n :
  re_search pat s = Some m -> closes n (body pat) = true ->
  exists t, m_marks m n = Some t /\ t <> [].
Proof.
  intros H C. destruct (re_search_sound _ _ _ H) as [_ (p & s0 & st & M & E)].
  rewrite E. exact (matches_closes _ n _ _ _ M C).
Qed.

Lemma matches_digit_group ic n r st st' :
  matches ic r st st' -> digit_group n r = true ->
  (forall t, marks st n = Some t -> Forall (fun c => is_digit c = true) t) ->
  forall t, marks st' n = Some t -> Forall (fun c => is_digit c = true) t.
Proof.
  induction 1; simpl; intros D I; auto.
  - apply andb_true_iff in D. destruct D. auto.
  - apply andb_true_iff in D. destruct D. auto.
  - apply andb_true_iff in D. destruct D. auto.
  - apply andb_true_iff in D. destruct D as [D1 D2].
    destruct (Nat.eqb n n0) eqn:E; [|auto].
    intros t Ht. inversion Ht; subst t.
    destruct a; try discriminate. destruct cs; try discriminate.
    inversion H; subst.
    erewrite consumed_prefix by (simpl; reflexivity).
    match goal with F : Forall _ taken |- _ => exact F end.
Qed.

Lemma re_search_digits pat s m n t :
  re_search pat s = Some m -> digit_group n (body pat) = true ->
  m_marks m n = Some t -> Forall (fun c => is_digit c = true) t.
Proof.
  intros H D. destruct (re_search_sound _ _ _ H) as [_ (p & s0 & st & M & E)].
  rewrite E. apply (matches_digit_group _ n _ _ _ M D). discriminate.
Qed.

Lemma closes_groups n r : closes n r = true -> n <= groups r.
Proof.
  induction r; simpl; intros H; try discriminate.
  - apply orb_true_iff in H. destruct H as [H|H].
    + apply IHr2 in H. lia.
    + apply andb_true_iff in H. destruct H as [H _]. apply IHr1 in H. lia.
  - apply andb_true_iff in H. destruct H as [H _]. apply IHr1 in H. lia.
  - destruct (Nat.eqb n n0) eqn:E.
    + apply Nat.eqb_eq in E. lia.
    + apply IHr in H. lia.
Qed.

(** ** The loop of [extract_anime_info] *)

Lemma group_or_closes pat s m :
  re_search pat s = Some m -> closes 2 (body pat) = true ->
  exists t, t <> [] /\ group m 2 = Ok (Some t) /\ group_or m 2 3 = Ok (Some t).
Proof.
  intros H C. destruct (re_search_closes _ _ _ 2 H C) as (t & Mt & Nt).
  destruct (re_search_sound _ _ _ H) as [G _].
  pose proof (closes_groups _ _ C) as L.
  exists t. unfold group_or, group. rewrite G.
  destruct (Nat.leb_spec 2 (groups (body pat))); [|lia].
  simpl. rewrite Mt. destruct t; [congruence|]. auto.
Qed.

Lemma on_match_ok pat s m :
  body_safe pat = true -> re_search pat s = Some m ->
  exists g episode,
    m_marks m 1 = Some g /\ g <> []
    /\ on_match m = Ok (clean_name (strip g), episode).
Proof.
  unfold body_safe. intros B H.
  apply andb_true_iff in B. destruct B as [C1 B].
  destruct (re_search_closes _ _ _ 1 H C1) as (g & Mg & Ng).
  destruct (re_search_sound _ _ _ H) as [G _].
  pose proof (closes_groups _ _ C1) as L1.
  assert (E : exists episode, group_or m 2 3 = Ok episode).
  { apply orb_true_iff in B. destruct B as [B|B].
    - apply Nat.leb_le in B. unfold group_or, group. rewrite G.
      destruct (Nat.leb_spec 2 (groups (body pat))); [|lia].
      destruct (Nat.leb_spec 3 (groups (body pat))); [|lia].
      simpl. destruct (truthy (m_marks m 2)); eauto.
    - apply andb_true_iff in B. destruct B as [_ C2].
      destruct (group_or_closes _ _ _ H C2) as (t & _ & _ & E). eauto. }
  destruct E as [episode E]. exists g, episode.
  repeat split; auto.
  unfold on_match, group. rewrite G.
  destruct (Nat.leb_spec 1 (groups (body pat))); [|lia].
  simpl. rewrite Mg. simpl. rewrite E. reflexivity.
Qed.

Lemma for_patterns_ok ps name :
  forallb body_safe ps = true ->
  exists anime_name episode, for_patterns ps name = Ok (anime_name, episode).
Proof.
  induction ps as [|pat ps IH]; simpl; intros B.
  - eauto.
  - apply andb_true_iff in B. destruct B as [B1 B2].
    destruct (re_search pat name) as [m|] eqn:H; [|auto].
    destruct (on_match_ok _ _ _ B1 H) as (g & e & _ & _ & E). eauto.
Qed.

Lemma patterns_safe : forallb body_safe patterns = true.
Proof. reflexivity. Qed.

(** ** [re.sub] on the two shapes of pattern the clean-up uses *)

Lemma sub_scan_0 pat repl p s :
  sub_scan pat repl p s 0 =
  let copy :=
    match s with
    | c :: t => c :: sub_scan pat repl (Some c) t 0
    | [] => []
    end in
  let replace (st : mstate) :=
    match s with
    | c :: t =>
        repl ++ sub_scan pat repl (Some c) t (length s - length (rest st) - 1)
    | [] => repl
    end in
  match match_here pat p s false with
  | None => copy
  | Some st =>
      if length (rest st) <? length s then replace st
      else
        repl ++
        match match_here pat p s true with
        | Some st' => replace st'
        | None => copy
        end
  end.
Proof. destruct s; reflexivity. Qed.

Lemma match_here_one cs ic p s :
  match_here (Pattern (One cs) ic) p s false =
  match s with
  | c :: t => if cmatch ic cs c then Some (MState (Some c) t no_marks) else None
  | [] => None
  end.
Proof.
  unfold match_here. simpl. destruct s as [|c t]; [reflexivity|].
  destruct (cmatch ic cs c); reflexivity.
Qed.

(** A one-character pattern: each character in the class is replaced. *)
Lemma re_sub_one cs ic repl s :
  re_sub (Pattern (One cs) ic) repl s =
  flat_map (fun c => if cmatch ic cs c then repl else [c]) s.
Proof.
  unfold re_sub. generalize (@None ascii) as p.
  induction s as [|c t IH]; intros p; rewrite sub_scan_0, match_here_one.
  - reflexivity.
  - cbv zeta. destruct (cmatch ic cs c) eqn:C; simpl flat_map; rewrite C.
    + cbn [rest length]. rewrite (proj2 (Nat.ltb_lt _ _) (Nat.lt_succ_diag_r _)).
      replace (S (length t) - length t - 1) with 0 by lia.
      rewrite IH. reflexivity.
    + rewrite IH. reflexivity.
Qed.

Lemma flat_map_delete (f : ascii -> bool) s :
  flat_map (fun c => if f c then [] else [c]) s = filter (fun c => negb (f c)) s.
Proof.
  induction s as [|c t IH]; [reflexivity|].
  simpl. destruct (f c); simpl; rewrite IH; reflexivity.
Qed.

(** The last [re.sub] of [generate_new_filename] is the filter. *)
Lemma re_sub_invalid s : re_sub invalid_re [] s = remove_invalid s.
Proof.
  unfold invalid_re, remove_invalid. rewrite re_sub_one.
  apply (flat_map_delete (cmatch false (CIn invalid_chars))).
Qed.

Lemma run_len_le f s : run_len f s <= length s.
Proof.
  induction s as [|c t IH]; simpl; [lia|]. destruct (f c); simpl; lia.
Qed.

Lemma rep_greedy_final ic cs lo s : forall p g n,
  rep_greedy ic cs lo s p g n (fun st => Some st) =
  if lo <=? n + run_len (cmatch ic cs) s
  then Some (MState (prev_after p (firstn (run_len (cmatch ic cs) s) s))
                    (skipn (run_len (cmatch ic cs) s) s) g)
  else None.
Proof.
  induction s as [|c t IH]; intros p g n; cbn [rep_greedy run_len].
  - rewrite Nat.add_0_r. reflexivity.
  - destruct (cmatch ic cs c) eqn:C.
    + rewrite IH. rewrite <- plus_n_Sm. cbn [Nat.add firstn skipn].
      destruct (Nat.leb_spec lo (S (n + run_len (cmatch ic cs) t))).
      * rewrite <- prev_after_snoc. reflexivity.
      * destruct (Nat.leb_spec lo n); [lia|reflexivity].
    + rewrite Nat.add_0_r. reflexivity.
Qed.

Lemma match_here_plus cs ic p s :
  match_here (Pattern (plus cs) ic) p s false =
  if 1 <=? run_len (cmatch ic cs) s
  then Some (MState (prev_after p (firstn (run_len (cmatch ic cs) s) s))
                    (skipn (run_len (cmatch ic cs) s) s) no_marks)
  else None.
Proof.
  unfold match_here. simpl.
  change (fun st : mstate => if false && (length (rest st) =? length s)
                             then None else Some st)
    with (fun st : mstate => Some st).
  rewrite rep_greedy_final. reflexivity.
Qed.

(** A repeated class: each maximal run is replaced once. *)
Lemma sub_scan_plus cs ic repl s : forall p,
  sub_scan (Pattern (plus cs) ic) repl p s 0
  = squeeze (cmatch ic cs) repl false s
  /\ sub_scan (Pattern (plus cs) ic) repl p s (run_len (cmatch ic cs) s)
     = squeeze (cmatch ic cs) repl true s.
Proof.
  induction s as [|c t IH]; intros p.
  - split; reflexivity.
  - assert (Z0 : sub_scan (Pattern (plus cs) ic) repl p (c :: t) 0
                 = squeeze (cmatch ic cs) repl false (c :: t)).
    { rewrite sub_scan_0, match_here_plus. cbv zeta. simpl run_len. simpl squeeze.
      destruct (cmatch ic cs c) eqn:C.
      - change (1 <=? S (run_len (cmatch ic cs) t)) with true.
        cbn [rest skipn length].
        pose proof (run_len_le (cmatch ic cs) t) as L.
        rewrite length_skipn.
        destruct (Nat.ltb_spec (length t - run_len (cmatch ic cs) t)
                               (S (length t))); [|lia].
        replace (S (length t) - (length t - run_len (cmatch ic cs) t) - 1)
          with (run_len (cmatch ic cs) t) by lia.
        rewrite (proj2 (IH (Some c))). reflexivity.
      - change (1 <=? 0) with false. cbv iota.
        rewrite (proj1 (IH (Some c))). reflexivity. }
    split; [exact Z0|].
    simpl run_len. simpl squeeze. destruct (cmatch ic cs c) eqn:C.
    + simpl sub_scan. apply (proj2 (IH (Some c))).
    + rewrite Z0. simpl. rewrite C. reflexivity.
Qed.

Lemma re_sub_plus cs ic repl s :
  re_sub (Pattern (plus cs) ic) repl s = squeeze (cmatch ic cs) repl false s.
Proof. apply (proj1 (sub_scan_plus cs ic repl s None)). Qed.

(** ** [str.strip] and the whitespace shape *)

Lemma lstrip_no_leading s : no_leading_space (lstrip s) = true.
Proof.
  induction s as [|c t IH]; [reflexivity|].
  simpl. destruct (is_space c) eqn:C; [exact IH|].
  simpl. rewrite C. reflexivity.
Qed.

Lemma lstrip_id s : no_leading_space s = true -> lstrip s = s.
Proof.
  destruct s as [|c t]; [reflexivity|].
  simpl. intros H. apply negb_true_iff in H. rewrite H. reflexivity.
Qed.

Lemma lstrip_suffix s : exists w, s = w ++ lstrip s.
Proof.
  induction s as [|c t [w IH]]; [exists []; reflexivity|].
  simpl. destruct (is_space c).
  - exists (c :: w). simpl. f_equal. exact IH.
  - exists []. reflexivity.
Qed.

Lemma lstrip_app a b :
  lstrip (a ++ b) =
  match lstrip a with
  | [] => lstrip b
  | _ :: _ => lstrip a ++ b
  end.
Proof.
  induction a as [|c t IH]; [reflexivity|].
  simpl. destruct (is_space c); [exact IH|reflexivity].
Qed.

Lemma rstrip_prefix s : exists w, s = rstrip s ++ w.
Proof.
  unfold rstrip. destruct (lstrip_suffix (rev s)) as [w E].
  exists (rev w). rewrite <- rev_app_distr, <- E, rev_involutive. reflexivity.
Qed.

Lemma rstrip_cons c t : is_space c = false -> rstrip (c :: t) = c :: rstrip t.
Proof.
  intros C. unfold rstrip. simpl rev. rewrite lstrip_app.
  destruct (lstrip (rev t)) as [|x l] eqn:E.
  - simpl. rewrite C. reflexivity.
  - rewrite rev_app_distr. reflexivity.
Qed.

Lemma rstrip_id s : no_trailing_space s = true -> rstrip s = s.
Proof.
  unfold no_trailing_space, rstrip. intros H.
  rewrite (lstrip_id _ H). apply rev_involutive.
Qed.

Lemma strip_no_leading s : no_leading_space (strip s) = true.
Proof.
  unfold strip. pose proof (lstrip_no_leading s) as H.
  destruct (lstrip s) as [|c t]; [reflexivity|].
  simpl in H. apply negb_true_iff in H.
  rewrite (rstrip_cons _ _ H). simpl. rewrite H. reflexivity.
Qed.

Lemma strip_no_trailing s : no_trailing_space (strip s) = true.
Proof.
  unfold strip, rstrip, no_trailing_space. rewrite rev_involutive.
  apply lstrip_no_leading.
Qed.

Lemma strip_id s :
  no_leading_space s = true -> no_trailing_space s = true -> strip s = s.
Proof.
  intros L T. unfold strip. rewrite (lstrip_id _ L). apply (rstrip_id _ T).
Qed.

Lemma single_spaced_app_r a b :
  single_spaced (a ++ b) = true -> single_spaced b = true.
Proof.
  induction a as [|c t IH]; [auto|].
  simpl. intros H. apply andb_true_iff in H. destruct H as [_ H]. auto.
Qed.

Lemma single_spaced_app_l a b :
  single_spaced (a ++ b) = true -> single_spaced a = true.
Proof.
  induction a as [|c t IH]; [reflexivity|].
  simpl. intros H. apply andb_true_iff in H. destruct H as [H1 H2].
  rewrite (IH H2), andb_true_r.
  destruct (is_space c); [|reflexivity].
  apply andb_true_iff in H1. destruct H1 as [E N]. rewrite E. simpl.
  destruct t; [reflexivity|exact N].
Qed.

Lemma single_spaced_strip s :
  single_spaced s = true -> single_spaced (strip s) = true.
Proof.
  intros H. unfold strip.
  destruct (rstrip_prefix (lstrip s)) as [w E].
  destruct (lstrip_suffix s) as [v F].
  rewrite F in H. apply single_spaced_app_r in H.
  rewrite E in H. apply (single_spaced_app_l _ _ H).
Qed.

(** Replacing every whitespace run by one space leaves single spaces. *)
Lemma squeeze_single_spaced s : forall b,
  single_spaced (squeeze is_space (lit " ") b s) = true
  /\ no_leading_space (squeeze is_space (lit " ") true s) = true.
Proof.
  induction s as [|c t IH]; intros b; [split; reflexivity|].
  destruct (IH true) as [St Lt]. destruct (IH false) as [Sf _].
  cbn [squeeze]. destruct (is_space c) eqn:C.
  - split; [|exact Lt]. destruct b; [exact St|].
    change (single_spaced (" "%char :: squeeze is_space (lit " ") true t)
            = true).
    cbn [single_spaced]. change (is_space " "%char) with true. cbv iota.
    rewrite Lt, St. reflexivity.
  - cbn [single_spaced no_leading_space]. rewrite C. split; [exact Sf|reflexivity].
Qed.

Lemma tidy_separators_normalised s : normalised (tidy_separators s) = true.
Proof.
  unfold normalised, tidy_separators.
  rewrite strip_no_leading, strip_no_trailing. simpl.
  apply single_spaced_strip. unfold spaces_re. rewrite re_sub_plus.
  apply (squeeze_single_spaced _ false).
Qed.

Lemma drop_quality_trimmed s :
  no_leading_space (drop_quality s) = true
  /\ no_trailing_space (drop_quality s) = true.
Proof.
  unfold drop_quality. split; [apply strip_no_leading|apply strip_no_trailing].
Qed.

(** When no quality indicator is found, the second stage changes nothing. *)
Lemma drop_quality_id s :
  normalised s = true -> re_sub quality_re [] s = s -> drop_quality s = s.
Proof.
  unfold normalised, drop_quality. intros N E. rewrite E.
  apply andb_true_iff in N. destruct N as [N _].
  apply andb_true_iff in N. destruct N as [L T]. apply (strip_id _ L T).
Qed.

(** ** [os.path.splitext] without indices *)

Lemma rfind_from_split c s : forall i found,
  rfind_from c s i found =
  match split_last c s with
  | Some (a, _) => (i + Z.of_nat (length a))%Z
  | None => found
  end.
Proof.
  induction s as [|x t IH]; intros i found; simpl; [reflexivity|].
  rewrite IH. destruct (split_last c t) as [[a b]|].
  - simpl length. lia.
  - destruct (Ascii.eqb x c); simpl; [lia|reflexivity].
Qed.

Lemma split_last_none d p :
  split_last d p = None <-> existsb (Ascii.eqb d) p = false.
Proof.
  induction p as [|c t IH]; simpl; [tauto|].
  rewrite (Ascii.eqb_sym d c).
  destruct (split_last d t) as [[a b]|].
  - split; [discriminate|]. intros H. apply orb_false_iff in H.
    destruct H as [_ H]. apply IH in H. discriminate.
  - destruct (Ascii.eqb c d); simpl; [split; discriminate|].
    split; intros _; [apply IH|]; reflexivity.
Qed.

Lemma split_last_some d p a b :
  split_last d p = Some (a, b) ->
  p = a ++ b /\ exists b', b = d :: b' /\ existsb (Ascii.eqb d) b' = false.
Proof.
  revert a b. induction p as [|c t IH]; intros a b H; simpl in H;
    [discriminate|].
  destruct (split_last d t) as [[a' b'']|] eqn:E.
  - inversion H; subst. destruct (IH _ _ eq_refl) as [P X].
    split; [simpl; f_equal; exact P|exact X].
  - destruct (Ascii.eqb c d) eqn:C; [|discriminate].
    inversion H; subst. apply Ascii.eqb_eq in C. subst c.
    split; [reflexivity|]. exists t. split; [reflexivity|].
    apply split_last_none. exact E.
Qed.

Lemma split_last_app d a b :
  split_last d (a ++ b) =
  match split_last d b with
  | Some (x, y) => Some (a ++ x, y)
  | None =>
      match split_last d a with
      | Some (x, y) => Some (x, y ++ b)
      | None => None
      end
  end.
Proof.
  induction a as [|c t IH]; simpl.
  - destruct (split_last d b) as [[x y]|]; reflexivity.
  - rewrite IH. destruct (split_last d b) as [[x y]|]; [reflexivity|].
    destruct (split_last d t) as [[x y]|]; [reflexivity|].
    destruct (Ascii.eqb c d); reflexivity.
Qed.

Lemma skip_dots_exists d mid : forall pre post,
  skip_dots d (pre ++ mid ++ post) (Z.of_nat (length pre)) (length mid)
  = existsb (fun c => negb (Ascii.eqb c d)) mid.
Proof.
  induction mid as [|c m IH]; intros pre post; [reflexivity|].
  simpl length. cbn [skip_dots existsb].
  rewrite Nat2Z.id, nth_error_app2, Nat.sub_diag by lia.
  cbn [nth_error app]. destruct (Ascii.eqb c d) eqn:C; [|reflexivity].
  simpl negb. cbv iota. simpl orb.
  replace (Z.of_nat (length pre) + 1)%Z with (Z.of_nat (length (pre ++ [c])))
    by (rewrite length_app; simpl; lia).
  replace (pre ++ c :: m ++ post) with ((pre ++ [c]) ++ m ++ post)
    by (rewrite <- app_assoc; reflexivity).
  apply IH.
Qed.

Lemma rfind_split c s :
  rfind c s =
  match split_last c s with
  | Some (a, _) => Z.of_nat (length a)
  | None => (-1)%Z
  end.
Proof.
  unfold rfind. rewrite rfind_from_split.
  destruct (split_last c s) as [[a b]|]; [apply Z.add_0_l|reflexivity].
Qed.

(** [splitext] makes exactly the split described by [split_extension]. *)
Lemma splitext_split_extension p : splitext p = split_extension p.
Proof.
  unfold splitext, _splitext, split_extension.
  pose proof (rfind_split dot p) as Hdot.
  pose proof (rfind_split slash p) as Hsep.
  destruct (split_last dot p) as [[root ext]|] eqn:D.
  - destruct (split_last_some _ _ _ _ D) as [P (e' & E & Nd)].
    replace (split_last slash p) with (split_last slash (root ++ ext)) in Hsep
      by (f_equal; symmetry; exact P).
    rewrite split_last_app in Hsep.
    rewrite Hdot.
    assert (Hroot : slice_to p (Z.of_nat (length root)) = root).
    { unfold slice_to. rewrite Nat2Z.id, P.
      rewrite firstn_app, Nat.sub_diag, firstn_all. simpl. apply app_nil_r. }
    assert (Hext : slice_from p (Z.of_nat (length root)) = ext).
    { unfold slice_from. rewrite Nat2Z.id, P.
      rewrite skipn_app, Nat.sub_diag, skipn_all. reflexivity. }
    rewrite Hroot, Hext.
    destruct (split_last slash ext) as [[x y]|] eqn:Sl.
    + (* a slash after the last dot *)
      assert (Hs : existsb (Ascii.eqb slash) ext = true).
      { destruct (existsb (Ascii.eqb slash) ext) eqn:X; [reflexivity|].
        apply split_last_none in X. congruence. }
      rewrite Hs, Hsep, length_app. simpl negb. cbn [andb].
      destruct (Z.ltb_spec (Z.of_nat (length root + length x))
                           (Z.of_nat (length root))); [lia|reflexivity].
    + apply split_last_none in Sl. rewrite Sl. simpl negb. cbn [andb].
      unfold last_component.
      destruct (split_last slash root) as [[x y]|] eqn:R.
      * destruct (split_last_some _ _ _ _ R) as [Pr (b & Eb & _)].
        subst y. assert (Lr : length root = length x + S (length b))
          by (rewrite Pr, length_app; reflexivity).
        rewrite Hsep.
        destruct (Z.ltb_spec (Z.of_nat (length x))
                             (Z.of_nat (length root))); [|lia].
        cbn [andb].
        replace (Z.to_nat (Z.of_nat (length root)
                           - (Z.of_nat (length x) + 1)))
          with (length b) by lia.
        replace (Z.of_nat (length x) + 1)%Z
          with (Z.of_nat (length (x ++ [slash])))
          by (rewrite length_app; simpl; lia).
        replace p with ((x ++ [slash]) ++ b ++ ext)
          by (rewrite P, Pr, <- !app_assoc; reflexivity).
        rewrite skip_dots_exists. reflexivity.
      * rewrite Hsep.
        destruct (Z.ltb_spec (-1) (Z.of_nat (length root))); [|lia].
        cbn [andb].
        replace (Z.to_nat (Z.of_nat (length root) - (-1 + 1)))
          with (length root) by lia.
        change (-1 + 1)%Z with (Z.of_nat (length (@nil ascii))).
        replace p with ([] ++ root ++ ext) by (rewrite P; reflexivity).
        rewrite skip_dots_exists. reflexivity.
  - rewrite Hdot, Hsep. destruct (split_last slash p) as [[x y]|].
    + destruct (Z.ltb_spec (Z.of_nat (length x)) (-1)); [lia|reflexivity].
    + reflexivity.
Qed.

(** ** The two operations *)

Lemma for_patterns_first_match ps name :
  for_patterns ps name =
  match first_match ps name with
  | Some m => on_match m
  | None => Ok (name, None)
  end.
Proof.
  induction ps as [|pat ps IH]; simpl; [reflexivity|].
  destruct (re_search pat name); [reflexivity|exact IH].
Qed.

Lemma first_match_none ps name :
  Forall (fun pat => re_search pat name = None) ps ->
  first_match ps name = None.
Proof.
  induction 1 as [|pat ps H _ IH]; simpl; [reflexivity|].
  rewrite H. exact IH.
Qed.

Lemma first_match_some ps name m :
  first_match ps name = Some m ->
  exists pat, In pat ps /\ re_search pat name = Some m.
Proof.
  induction ps as [|pat ps IH]; simpl; [discriminate|].
  destruct (re_search pat name) as [m'|] eqn:H; intros F.
  - inversion F; subst. exists pat. auto.
  - destruct (IH F) as (q & I & E). exists q. auto.
Qed.

(** At a match of one of the rules the captured name is not empty and the
    loop body returns the cleaned name. *)
Lemma extract_at_match filename m :
  first_match patterns (fst (splitext filename)) = Some m ->
  exists g episode,
    m_marks m 1 = Some g /\ g <> []
    /\ extract_anime_info filename = Ok (clean_name (strip g), episode).
Proof.
  intros F. unfold extract_anime_info. cbv zeta.
  rewrite for_patterns_first_match, F.
  destruct (first_match_some _ _ _ F) as (pat & I & H).
  apply (on_match_ok pat (fst (splitext filename)) m); [|exact H].
  pose proof patterns_safe as B. rewrite forallb_forall in B. apply B, I.
Qed.

Lemma zfill_left_pad width s :
  starts_with_sign s = false -> zfill width s = left_pad width s.
Proof.
  unfold zfill, left_pad. intros H.
  destruct (Nat.leb_spec width (length s)) as [L|L].
  - replace (width - length s) with 0 by lia. reflexivity.
  - destruct s as [|c t]; [symmetry; apply app_nil_r|].
    simpl in H. rewrite H. reflexivity.
Qed.

Lemma remove_invalid_clean s c :
  In c (remove_invalid s) -> ~ In c invalid_chars.
Proof.
  unfold remove_invalid. intros H. apply filter_In in H. destruct H as [_ H].
  apply negb_true_iff in H. intros I.
  assert (X : is_invalid c = true).
  { unfold is_invalid. apply existsb_exists. exists c.
    split; [exact I|apply Ascii.eqb_refl]. }
  congruence.
Qed.

Lemma remove_invalid_id s :
  (forall c, In c s -> ~ In c invalid_chars) -> remove_invalid s = s.
Proof.
  unfold remove_invalid. induction s as [|c t IH]; intros H; [reflexivity|].
  simpl. assert (X : is_invalid c = false).
  { destruct (is_invalid c) eqn:E; [|reflexivity].
    unfold is_invalid in E. apply existsb_exists in E.
    destruct E as (x & I & E). apply Ascii.eqb_eq in E. subst x.
    exfalso. apply (H c); [left; reflexivity|exact I]. }
  rewrite X. simpl. f_equal. apply IH. intros x I. apply H. right. exact I.
Qed.

Lemma split_extension_concat p :
  fst (split_extension p) ++ snd (split_extension p) = p.
Proof.
  unfold split_extension.
  destruct (split_last dot p) as [[root ext]|] eqn:D;
    [|simpl; apply app_nil_r].
  destruct (split_last_some _ _ _ _ D) as [P _].
  destruct (negb (existsb (Ascii.eqb slash) ext)
            && existsb (fun c => negb (Ascii.eqb c dot)) (last_component root));
    simpl; [symmetry; exact P|apply app_nil_r].
Qed.

(** Without a slash, and with a first character other than a dot, the
    split is at the last dot. *)
Lemma split_extension_plain p :
  existsb (Ascii.eqb slash) p = false ->
  match p with c :: _ => Ascii.eqb c dot | [] => false end = false ->
  split_extension p =
  match split_last dot p with
  | Some (root, ext) => (root, ext)
  | None => (p, [])
  end.
Proof.
  intros Hs Hd. unfold split_extension.
  destruct (split_last dot p) as [[root ext]|] eqn:D; [|reflexivity].
  destruct (split_last_some _ _ _ _ D) as [P (e' & E & _)].
  rewrite P, existsb_app in Hs. apply orb_false_iff in Hs.
  destruct Hs as [Hr He]. rewrite He. simpl negb. cbn [andb].
  unfold last_component.
  apply split_last_none in Hr. rewrite Hr.
  destruct root as [|c r].
  - subst ext. rewrite P in Hd. discriminate.
  - rewrite P in Hd. simpl in Hd. simpl. rewrite Hd. reflexivity.
Qed.

(** * Statements of the specification *)

(** C1. The file name "[SubGroup] Great Anime - 05 [720p].mkv": the first
    rule is the one that matches, with the name "Great Anime" and the digits
    "05" in its two groups; [extract_anime_info] returns the name
    "Great Anime" and the episode "05"; and [generate_new_filename] on that
    result and the same file name returns "Great Anime - Episode 05.mkv". *)
Theorem scenario_great_anime :
  (exists m,
     first_match patterns
       (fst (splitext (lit "[SubGroup] Great Anime - 05 [720p].mkv")))
     = Some m
     /\ re_search (Pattern subgroup_re true)
          (fst (splitext (lit "[SubGroup] Great Anime - 05 [720p].mkv")))
        = Some m
     /\ m_marks m 1 = Some (lit "Great Anime")
     /\ m_marks m 2 = Some (lit "05"))
  /\ extract_anime_info (lit "[SubGroup] Great Anime - 05 [720p].mkv")
     = Ok (lit "Great Anime", Some (lit "05"))
  /\ generate_new_filename (lit "Great Anime") (Some (lit "05"))
       (lit "[SubGroup] Great Anime - 05 [720p].mkv")
     = lit "Great Anime - Episode 05.mkv".
Proof.
  split; [|split; vm_compute; reflexivity].
  destruct (re_search (Pattern subgroup_re true)
              (fst (splitext (lit "[SubGroup] Great Anime - 05 [720p].mkv"))))
    as [m|] eqn:R; [|vm_compute in R; discriminate].
  exists m. split; [|split; [reflexivity|]].
  - unfold patterns. simpl map. cbn [first_match]. rewrite R. reflexivity.
  - vm_compute in R. inversion R. split; reflexivity.
Qed.

(** C2. [extract_anime_info] returns a result on every file name, the
    empty one included: no path raises.  The rules with two groups have no
    group 3, but at each of their matches group 2 holds a non-empty string
    of digits, so [group 2 or group 3] is group 2 and group 3 is never
    asked for. *)
Theorem extract_anime_info_total :
  (forall filename, exists anime_name episode,
     extract_anime_info filename = Ok (anime_name, episode))
  /\ map body patterns
     = [subgroup_re; dotted_re; episode_re; dash_re; trailing_re]
  /\ groups dotted_re = 3
  /\ (forall r s m,
        In r two_group_rules -> re_search (Pattern r true) s = Some m ->
        groups r = 2 /\ group m 3 = Raise IndexError
        /\ exists digits,
             digits <> [] /\ Forall (fun c => is_digit c = true) digits
             /\ group m 2 = Ok (Some digits)
             /\ group_or m 2 3 = Ok (Some digits)).
Proof.
  split; [|split; [reflexivity|split; [reflexivity|]]].
  - intros filename. apply for_patterns_ok, patterns_safe.
  - intros r s m I H.
    assert (P : groups r = 2 /\ closes 2 r = true /\ digit_group 2 r = true).
    { simpl in I.
      destruct I as [<-|[<-|[<-|[<-|[]]]]]; repeat split; reflexivity. }
    destruct P as (G & C & D).
    destruct (re_search_sound _ _ _ H) as [Gm _]. simpl in Gm.
    split; [exact G|]. split; [unfold group; rewrite Gm, G; reflexivity|].
    destruct (group_or_closes _ _ _ H C) as (t & Nt & Gt & Ot).
    exists t. repeat split; auto.
    apply (re_search_digits _ _ _ 2 t H D).
    unfold group in Gt. rewrite Gm, G in Gt. simpl in Gt.
    injection Gt as E. exact E.
Qed.

Lemma extract_anime_info_total_witness :
  (exists anime_name episode, extract_anime_info [] = Ok (anime_name, episode))
  /\ exists m digits,
       re_search (Pattern dash_re true) (lit "Show - 07") = Some m
       /\ digits <> [] /\ group_or m 2 3 = Ok (Some digits).
Proof.
  split; [apply (proj1 extract_anime_info_total [])|].
  destruct (re_search (Pattern dash_re true) (lit "Show - 07")) as [m|] eqn:R;
    [|vm_compute in R; discriminate].
  destruct (proj2 (proj2 (proj2 extract_anime_info_total)) dash_re
              (lit "Show - 07") m) as (_ & _ & digits & N & _ & _ & O).
  - simpl. auto.
  - exact R.
  - exists m, digits. auto.
Defined.

(** C3. The format of [generate_new_filename].  With an episode (a
    non-empty string that does not start with a sign, which every string of
    digits is) the result is the name, " - Episode ", the episode padded on
    the left with zeros to two characters, and the extension, the reserved
    characters removed; without one it is the name and the extension, the
    reserved characters removed.  "1" pads to "01", "12" stays, and wider
    episodes are unchanged.  ("Show", "5", "x.mkv") gives
    "Show - Episode 05.mkv" and ("Show", None, "x.mkv") gives "Show.mkv". *)
Theorem generate_new_filename_format anime_name original_filename :
  (forall episode,
     episode <> [] -> starts_with_sign episode = false ->
     generate_new_filename anime_name (Some episode) original_filename
     = remove_invalid
         (anime_name ++ lit " - Episode " ++ left_pad 2 episode
          ++ snd (splitext original_filename)))
  /\ generate_new_filename anime_name None original_filename
     = remove_invalid (anime_name ++ snd (splitext original_filename))
  /\ left_pad 2 (lit "1") = lit "01"
  /\ left_pad 2 (lit "12") = lit "12"
  /\ (forall episode, 2 <= length episode -> left_pad 2 episode = episode)
  /\ (forall episode,
        Forall (fun c => is_digit c = true) episode ->
        starts_with_sign episode = false)
  /\ generate_new_filename (lit "Show") (Some (lit "5")) (lit "x.mkv")
     = lit "Show - Episode 05.mkv"
  /\ generate_new_filename (lit "Show") None (lit "x.mkv") = lit "Show.mkv".
Proof.
  repeat split; try (vm_compute; reflexivity).
  - intros episode N S. unfold generate_new_filename, new_filename_of.
    rewrite re_sub_invalid. destruct episode as [|c t]; [congruence|].
    cbv zeta. rewrite (zfill_left_pad 2 (c :: t) S). reflexivity.
  - unfold generate_new_filename, new_filename_of. apply re_sub_invalid.
  - intros episode L. unfold left_pad.
    replace (2 - length episode) with 0 by lia. reflexivity.
  - intros episode F. destruct F as [|c t D _]; [reflexivity|].
    simpl. unfold is_sign.
    destruct (Ascii.eqb_spec c "+"%char) as [->|_]; [discriminate D|].
    destruct (Ascii.eqb_spec c "-"%char) as [->|_]; [discriminate D|].
    reflexivity.
Qed.

Lemma generate_new_filename_format_witness :
  generate_new_filename (lit "Show") (Some (lit "5")) (lit "x.mkv")
  = remove_invalid
      (lit "Show" ++ lit " - Episode " ++ left_pad 2 (lit "5")
       ++ snd (splitext (lit "x.mkv")))
  /\ left_pad 2 (lit "123") = lit "123"
  /\ starts_with_sign (lit "5") = false.
Proof.
  destruct (generate_new_filename_format (lit "Show") (lit "x.mkv"))
    as (F & _ & _ & _ & W & D & _).
  split; [|split].
  - apply F; [discriminate|reflexivity].
  - apply W. simpl. lia.
  - apply D. repeat constructor.
Defined.

(** C4. The string [generate_new_filename] returns holds none of the
    reserved characters; it is the composed name with those characters
    deleted and nothing put in their place; and the removal leaves a string
    without reserved characters as it is. *)
Theorem invalid_characters_removed anime_name episode original_filename :
  (forall c,
     In c (generate_new_filename anime_name episode original_filename) ->
     ~ In c invalid_chars)
  /\ generate_new_filename anime_name episode original_filename
     = filter (fun c => negb (is_invalid c))
         (new_filename_of anime_name episode original_filename)
  /\ (forall s,
        (forall c, In c s -> ~ In c invalid_chars) ->
        re_sub invalid_re [] s = s)
  /\ re_sub invalid_re []
       (generate_new_filename anime_name episode original_filename)
     = generate_new_filename anime_name episode original_filename.
Proof.
  unfold generate_new_filename. rewrite !re_sub_invalid.
  repeat split.
  - intros c. apply remove_invalid_clean.
  - intros s H. rewrite re_sub_invalid. apply remove_invalid_id, H.
  - apply remove_invalid_id. intros c. apply remove_invalid_clean.
Qed.

Lemma invalid_characters_removed_witness :
  generate_new_filename (lit "Show: Part?") (Some (lit "5")) (lit "x.mkv")
  = lit "Show Part - Episode 05.mkv"
  /\ re_sub invalid_re [] (lit "Show Part - Episode 05.mkv")
     = lit "Show Part - Episode 05.mkv".
Proof.
  split; [vm_compute; reflexivity|].
  apply (proj1 (proj2 (proj2 (invalid_characters_removed [] None [])))).
  intros c I. vm_compute in I. vm_compute.
  intros J.
  repeat (destruct I as [<-|I]; [repeat (destruct J as [J|J];
                                          [discriminate J|]); exact J|]).
  exact I.
Defined.

(** C5. When none of the five rules matches the stem, [extract_anime_info]
    returns the stem as it is and no episode; "randomfile.mkv" gives
    ("randomfile", None). *)
Theorem fallback_returns_stem :
  (forall filename,
     Forall (fun pat => re_search pat (fst (splitext filename)) = None)
            patterns ->
     extract_anime_info filename = Ok (fst (splitext filename), None))
  /\ length patterns = 5
  /\ extract_anime_info (lit "randomfile.mkv") = Ok (lit "randomfile", None).
Proof.
  split; [|split; vm_compute; reflexivity].
  intros filename H. unfold extract_anime_info. cbv zeta.
  rewrite for_patterns_first_match, (first_match_none _ _ H). reflexivity.
Qed.

Lemma fallback_returns_stem_witness :
  extract_anime_info (lit " my file.tar.gz") = Ok (lit " my file.tar", None).
Proof.
  apply (proj1 fallback_returns_stem (lit " my file.tar.gz")).
  repeat constructor.
Defined.

(** C9. [generate_new_filename] is a function of the name, the episode and
    the extension of the original file name: equal arguments give equal
    results, and two original file names with the same extension give the
    same result. *)
Theorem generate_new_filename_extension_only :
  (forall a e o a' e' o',
     a = a' -> e = e' -> o = o' ->
     generate_new_filename a e o = generate_new_filename a' e' o')
  /\ (forall anime_name episode o1 o2,
        snd (splitext o1) = snd (splitext o2) ->
        generate_new_filename anime_name episode o1
        = generate_new_filename anime_name episode o2).
Proof.
  split.
  - intros a e o a' e' o' -> -> ->. reflexivity.
  - intros anime_name episode o1 o2 H.
    unfold generate_new_filename, new_filename_of. rewrite H. reflexivity.
Qed.

Lemma generate_new_filename_extension_only_witness :
  generate_new_filename (lit "Show") (Some (lit "5")) (lit "[Grp] a - 5.mkv")
  = generate_new_filename (lit "Show") (Some (lit "5")) (lit "b/c.d/e.mkv").
Proof.
  apply (proj2 generate_new_filename_extension_only). reflexivity.
Defined.

(** C10. An empty episode string counts as no episode: the result is the
    name and the extension, the reserved characters removed, and no
    "Episode 00" is produced. *)
Theorem empty_episode_is_absent :
  (forall anime_name original_filename,
     generate_new_filename anime_name (Some []) original_filename
     = generate_new_filename anime_name None original_filename
     /\ generate_new_filename anime_name (Some []) original_filename
        = remove_invalid (anime_name ++ snd (splitext original_filename)))
  /\ zfill 2 [] = lit "00"
  /\ generate_new_filename (lit "Show") (Some []) (lit "x.mkv")
     = lit "Show.mkv".
Proof.
  split; [|split; vm_compute; reflexivity].
  intros anime_name original_filename. split; [reflexivity|].
  unfold generate_new_filename, new_filename_of. apply re_sub_invalid.
Qed.

(** C6, as the code has it: the name can come out empty.  "BD - 01.mkv"
    matches the fourth rule with the name "BD", which the clean-up deletes
    as a quality indicator; and the empty file name falls back to its empty
    stem. *)
Lemma series_name_can_be_empty :
  extract_anime_info (lit "BD - 01.mkv") = Ok ([], Some (lit "01"))
  /\ extract_anime_info [] = Ok ([], None).
Proof. split; vm_compute; reflexivity. Qed.

(** C6, amended.  When no rule matches, the name is the stem, so it is
    non-empty when the stem is.  When a rule matches, the text captured for
    the name is non-empty, and the name returned is that text stripped and
    cleaned up (which may leave nothing). *)
Theorem series_name_nonempty_cases filename :
  (first_match patterns (fst (splitext filename)) = None ->
   fst (splitext filename) <> [] ->
   exists anime_name,
     extract_anime_info filename = Ok (anime_name, None)
     /\ anime_name = fst (splitext filename) /\ anime_name <> [])
  /\ (forall m,
        first_match patterns (fst (splitext filename)) = Some m ->
        exists captured episode,
          m_marks m 1 = Some captured /\ captured <> []
          /\ extract_anime_info filename
             = Ok (clean_name (strip captured), episode)).
Proof.
  split.
  - intros F N. exists (fst (splitext filename)).
    unfold extract_anime_info. cbv zeta.
    rewrite for_patterns_first_match, F. auto.
  - intros m F. apply (extract_at_match filename m F).
Qed.

Lemma series_name_nonempty_cases_witness :
  (exists anime_name,
     extract_anime_info (lit "randomfile.mkv") = Ok (anime_name, None)
     /\ anime_name = lit "randomfile" /\ anime_name <> [])
  /\ exists m captured episode,
       first_match patterns (lit "Show - 07") = Some m
       /\ m_marks m 1 = Some captured /\ captured <> []
       /\ extract_anime_info (lit "Show - 07.mkv")
          = Ok (clean_name (strip captured), episode).
Proof.
  split.
  - apply (proj1 (series_name_nonempty_cases (lit "randomfile.mkv")));
      [vm_compute; reflexivity|discriminate].
  - destruct (first_match patterns (lit "Show - 07")) as [m|] eqn:F;
      [|vm_compute in F; discriminate].
    destruct (proj2 (series_name_nonempty_cases (lit "Show - 07.mkv")) m F)
      as (captured & episode & M & N & E).
    exists m, captured, episode. auto.
Defined.

(** C7, as the code has it: a quality indicator deleted from the middle of
    a name leaves the spaces on both of its sides, and the fallback returns
    the stem with its whitespace. *)
Lemma whitespace_not_normalised :
  extract_anime_info (lit "Great 720p Anime - 05.mkv")
  = Ok (lit "Great  Anime", Some (lit "05"))
  /\ single_spaced (lit "Great  Anime") = false
  /\ extract_anime_info (lit " a.mkv") = Ok (lit " a", None)
  /\ no_leading_space (lit " a") = false.
Proof. repeat split; vm_compute; reflexivity. Qed.

(** C7, amended.  When a rule matches, the name returned has no leading
    and no trailing whitespace.  The name as it stands before the quality
    indicators are deleted has, besides, only single spaces as whitespace;
    and when none is deleted, the name returned is that name. *)
Theorem series_name_whitespace_at_match filename m :
  first_match patterns (fst (splitext filename)) = Some m ->
  exists captured episode,
    m_marks m 1 = Some captured
    /\ extract_anime_info filename
       = Ok (drop_quality (tidy_separators (strip captured)), episode)
    /\ no_leading_space (drop_quality (tidy_separators (strip captured)))
       = true
    /\ no_trailing_space (drop_quality (tidy_separators (strip captured)))
       = true
    /\ normalised (tidy_separators (strip captured)) = true
    /\ (re_sub quality_re [] (tidy_separators (strip captured))
        = tidy_separators (strip captured) ->
        drop_quality (tidy_separators (strip captured))
        = tidy_separators (strip captured)).
Proof.
  intros F.
  destruct (extract_at_match filename m F) as (captured & episode & M & _ & E).
  exists captured, episode.
  destruct (drop_quality_trimmed (tidy_separators (strip captured))) as [L T].
  pose proof (tidy_separators_normalised (strip captured)) as N.
  repeat split; auto.
  intros Q. apply (drop_quality_id _ N Q).
Qed.

Lemma series_name_whitespace_at_match_witness :
  exists anime_name episode,
    extract_anime_info (lit "[Grp]  My_Show..Name  - 07 [1080p].mkv")
    = Ok (anime_name, episode)
    /\ no_leading_space anime_name = true
    /\ no_trailing_space anime_name = true
    /\ normalised anime_name = true.
Proof.
  destruct (first_match patterns
              (fst (splitext (lit "[Grp]  My_Show..Name  - 07 [1080p].mkv"))))
    as [m|] eqn:F; [|vm_compute in F; discriminate].
  destruct (series_name_whitespace_at_match
              (lit "[Grp]  My_Show..Name  - 07 [1080p].mkv") m F)
    as (captured & episode & M & E & L & T & N & Q).
  vm_compute in F. injection F as <-.
  vm_compute in M. injection M as <-.
  eexists. exists episode. split; [exact E|]. split; [exact L|].
  split; [exact T|]. rewrite Q; [exact N|vm_compute; reflexivity].
Defined.

(** C8, as the code has it: [splitext] does not split at a dot that only
    dots precede in the last component, nor at a dot that a slash follows.
    ".mkv" has the stem ".mkv" and no extension, although its final dot is
    its first character. *)
Lemma leading_dot_is_no_extension :
  splitext (lit ".mkv") = (lit ".mkv", [])
  /\ split_last dot (lit ".mkv") = Some ([], lit ".mkv")
  /\ extract_anime_info (lit ".mkv") = Ok (lit ".mkv", None)
  /\ generate_new_filename (lit "Show") None (lit ".mkv") = lit "Show"
  /\ splitext (lit "a.b/c") = (lit "a.b/c", []).
Proof. repeat split; vm_compute; reflexivity. Qed.

(** C8, amended.  The stem of [extract_anime_info] and the extension of
    [generate_new_filename] are the two parts of one split of the file
    name.  The split is at the final dot when no slash follows that dot and
    a character other than a dot precedes it in the last component;
    otherwise the stem is the whole name and the extension is empty.  So
    for a file name without a slash whose first character is not a dot the
    split is at the final dot (the whole name when there is none), also
    when the name ends with a dot. *)
Theorem stem_and_extension filename :
  splitext filename = split_extension filename
  /\ extract_anime_info filename
     = for_patterns patterns (fst (split_extension filename))
  /\ (forall anime_name episode,
        generate_new_filename anime_name episode filename
        = remove_invalid
            (match episode with
             | Some (c :: t) =>
                 anime_name ++ lit " - Episode " ++ zfill 2 (c :: t)
                 ++ snd (split_extension filename)
             | _ => anime_name ++ snd (split_extension filename)
             end))
  /\ fst (split_extension filename) ++ snd (split_extension filename)
     = filename
  /\ (existsb (Ascii.eqb slash) filename = false ->
      match filename with c :: _ => Ascii.eqb c dot | [] => false end = false ->
      splitext filename =
      match split_last dot filename with
      | Some (stem, extension) => (stem, extension)
      | None => (filename, [])
      end).
Proof.
  pose proof (splitext_split_extension filename) as E.
  repeat split.
  - exact E.
  - unfold extract_anime_info. rewrite E. reflexivity.
  - intros anime_name episode. unfold generate_new_filename, new_filename_of.
    rewrite E. apply re_sub_invalid.
  - apply split_extension_concat.
  - intros Hs Hd. rewrite E. apply (split_extension_plain _ Hs Hd).
Qed.

Lemma stem_and_extension_witness :
  splitext (lit "Show.S01E02.") = (lit "Show.S01E02", lit ".").
Proof.
  apply (proj2 (proj2 (proj2 (proj2
           (stem_and_extension (lit "Show.S01E02.")))))); reflexivity.
Defined.

(** * Further properties of the engine and of its callers *)

(** ** The episode *)

Lemma re_search_sound_at pat s m :
  re_search pat s = Some m ->
  exists pre p s0 st,
    s = pre ++ s0
    /\ matches (ignorecase pat) (body pat) (MState p s0 no_marks) st
    /\ m_marks m = marks st.
Proof.
  unfold re_search. intros H.
  destruct (search_from pat None s) as [[[pre st] s0]|] eqn:E; [|discriminate].
  inversion H; subst. simpl.
  destruct (search_from_sound _ _ _ _ _ _ E) as [P [p M]].
  exists pre, p, s0, st. auto.
Qed.

Lemma matches_takes_digit ic r st st' :
  matches ic r st st' -> requires_digit r = true ->
  exists x, rest st = x ++ rest st' /\ existsb is_digit x = true.
Proof.
  induction 1; simpl; intros R; try discriminate.
  - destruct cs; try discriminate. exists [c]. simpl in *.
    split; [reflexivity|]. rewrite H. reflexivity.
  - destruct (matches_prefix ic _ _ _ H) as (x1 & E1 & _).
    destruct (matches_prefix ic _ _ _ H0) as (x2 & E2 & _).
    apply orb_true_iff in R. destruct R as [R|R].
    + destruct (IHmatches1 R) as (x & E & D).
      exists (x ++ x2). rewrite E, E2, app_assoc, existsb_app, D.
      split; reflexivity.
    + destruct (IHmatches2 R) as (x & E & D).
      exists (x1 ++ x). rewrite E1, E, app_assoc, existsb_app, D, orb_true_r.
      split; reflexivity.
  - apply andb_true_iff in R. destruct R as [R _]. auto.
  - apply andb_true_iff in R. destruct R as [_ R]. auto.
  - auto.
  - destruct cs; try discriminate. exists taken. split; [reflexivity|].
    destruct taken as [|c t]; [destruct lo; [discriminate|simpl in H; lia]|].
    inversion H0; subst. simpl in *.
    match goal with D : is_digit c = true |- _ => rewrite D end. reflexivity.
Qed.

(** A text without a decimal digit is matched by none of the rules. *)
Lemma no_digit_no_match pat s :
  requires_digit (body pat) = true -> existsb is_digit s = false ->
  re_search pat s = None.
Proof.
  intros R D. destruct (re_search pat s) as [m|] eqn:H; [|reflexivity].
  destruct (re_search_sound_at _ _ _ H) as (pre & p & s0 & st & P & M & _).
  destruct (matches_takes_digit _ _ _ _ M R) as (x & E & X).
  simpl in E. rewrite P, E, !existsb_app, X, orb_true_r in D. discriminate.
Qed.

Lemma patterns_require_digit :
  forallb (fun pat => requires_digit (body pat)) patterns = true.
Proof. reflexivity. Qed.

Lemma on_match_inv m anime_name episode :
  on_match m = Ok (anime_name, episode) -> group_or m 2 3 = Ok episode.
Proof.
  unfold on_match. destruct (group m 1) as [g|]; [|discriminate]. simpl.
  destruct (strip_opt g); [|discriminate]. simpl.
  destruct (group_or m 2 3); [|discriminate]. simpl.
  intros H. inversion H. reflexivity.
Qed.

(** At a match of the second rule one of the groups 2 and 3 holds a
    non-empty string of digits and the other holds nothing. *)
Lemma dotted_episode s m :
  re_search (Pattern dotted_re true) s = Some m ->
  exists digits,
    group_or m 2 3 = Ok (Some digits) /\ digits <> []
    /\ Forall (fun c => is_digit c = true) digits.
Proof.
  intros H.
  destruct (re_search_sound _ _ _ H) as [G (p & s0 & st & M & E)].
  simpl in G, M.
  assert (D2 : forall t, m_marks m 2 = Some t ->
                         Forall (fun c => is_digit c = true) t)
    by (intros t; apply (re_search_digits _ _ _ 2 t H); reflexivity).
  assert (D3 : forall t, m_marks m 3 = Some t ->
                         Forall (fun c => is_digit c = true) t)
    by (intros t; apply (re_search_digits _ _ _ 3 t H); reflexivity).
  unfold group_or, group. rewrite G. simpl.
  unfold dotted_re in M. simpl seq in M.
  inversion M as [| |a b st1 st2 st3 M1 M23| | | | | |]; subst.
  inversion M23 as [| |a b st1' st2' st3' Mdot Malt| | | | | |]; subst.
  inversion Malt as [| | |a b st1' st' MA|a b st1' st' MB| | | |]; subst.
  - destruct (matches_closes true 2 _ _ _ MA eq_refl) as (t & Mt & Nt).
    rewrite E, Mt. destruct t as [|c t]; [congruence|]. simpl.
    exists (c :: t). repeat split; auto. apply D2. rewrite E. exact Mt.
  - destruct (matches_closes true 3 _ _ _ MB eq_refl) as (t & Mt & Nt).
    assert (N2 : marks st 2 = None).
    { rewrite (matches_frame true 2 _ _ _ MB eq_refl).
      rewrite (matches_frame true 2 _ _ _ Mdot eq_refl).
      rewrite (matches_frame true 2 _ _ _ M1 eq_refl). reflexivity. }
    rewrite E, N2. simpl. rewrite Mt.
    exists t. repeat split; auto. apply D3. rewrite E. exact Mt.
Qed.

Lemma rule_episode pat s m :
  In pat patterns -> re_search pat s = Some m ->
  exists digits,
    group_or m 2 3 = Ok (Some digits) /\ digits <> []
    /\ Forall (fun c => is_digit c = true) digits.
Proof.
  intros I H.
  assert (Two : closes 2 (body pat) = true ->
                digit_group 2 (body pat) = true ->
                exists digits,
                  group_or m 2 3 = Ok (Some digits) /\ digits <> []
                  /\ Forall (fun c => is_digit c = true) digits).
  { intros C D. destruct (group_or_closes _ _ _ H C) as (t & Nt & Gt & Ot).
    exists t. repeat split; auto.
    apply (re_search_digits _ _ _ 2 t H D).
    destruct (re_search_closes _ _ _ 2 H C) as (t' & Mt & _).
    unfold group in Gt. destruct (2 <=? m_groups m); [|discriminate].
    injection Gt as Gt. exact Gt. }
  simpl in I. destruct I as [<-|[<-|[<-|[<-|[<-|[]]]]]];
    try (apply Two; reflexivity).
  apply (dotted_episode s m H).
Qed.

Lemma episode_at_match filename m :
  first_match patterns (fst (splitext filename)) = Some m ->
  exists anime_name digits,
    extract_anime_info filename = Ok (anime_name, Some digits)
    /\ digits <> [] /\ Forall (fun c => is_digit c = true) digits.
Proof.
  intros F.
  destruct (extract_at_match filename m F) as (g & episode & _ & _ & E).
  destruct (first_match_some _ _ _ F) as (pat & I & H).
  destruct (rule_episode pat _ m I H) as (digits & O & N & D).
  assert (X : on_match m = Ok (clean_name (strip g), episode)).
  { unfold extract_anime_info in E. cbv zeta in E.
    rewrite for_patterns_first_match, F in E. exact E. }
  apply on_match_inv in X. rewrite O in X. injection X as <-.
  exists (clean_name (strip g)), digits. auto.
Qed.

(** X1. Whatever [extract_anime_info] returns, its episode is either None,
    and then no rule matched and the name is the stem, or a non-empty
    string of decimal digits, and then a rule matched. *)
Theorem episode_is_digits_or_none filename anime_name episode :
  extract_anime_info filename = Ok (anime_name, episode) ->
  match episode with
  | None =>
      first_match patterns (fst (splitext filename)) = None
      /\ anime_name = fst (splitext filename)
  | Some digits =>
      first_match patterns (fst (splitext filename)) <> None
      /\ digits <> [] /\ Forall (fun c => is_digit c = true) digits
  end.
Proof.
  intros H.
  destruct (first_match patterns (fst (splitext filename))) as [m|] eqn:F.
  - destruct (episode_at_match filename m F) as (a & digits & E & N & D).
    rewrite E in H. injection H as <- <-.
    split; [discriminate|]. auto.
  - unfold extract_anime_info in H. cbv zeta in H.
    rewrite for_patterns_first_match, F in H. injection H as <- <-. auto.
Qed.

Lemma episode_is_digits_or_none_witness :
  first_match patterns (fst (splitext (lit "Show.Name.S01E03.mkv"))) <> None
  /\ lit "03" <> []
  /\ Forall (fun c => is_digit c = true) (lit "03").
Proof.
  apply (episode_is_digits_or_none (lit "Show.Name.S01E03.mkv")
           (lit "Show Name") (Some (lit "03"))).
  vm_compute. reflexivity.
Defined.

(** X2. A file name whose stem holds no decimal digit is matched by no
    rule: [extract_anime_info] returns the stem and no episode. *)
Theorem no_digit_falls_back filename :
  existsb is_digit (fst (splitext filename)) = false ->
  first_match patterns (fst (splitext filename)) = None
  /\ extract_anime_info filename = Ok (fst (splitext filename), None).
Proof.
  intros D.
  assert (F : first_match patterns (fst (splitext filename)) = None).
  { apply first_match_none. apply Forall_forall. intros pat I.
    apply no_digit_no_match; [|exact D].
    pose proof patterns_require_digit as R. rewrite forallb_forall in R.
    apply R, I. }
  split; [exact F|].
  unfold extract_anime_info. cbv zeta.
  rewrite for_patterns_first_match, F. reflexivity.
Qed.

Lemma no_digit_falls_back_witness :
  extract_anime_info (lit "[Grp] My Show - Episode Final [BD].mp4")
  = Ok (lit "[Grp] My Show - Episode Final [BD]", None).
Proof.
  exact (proj2 (no_digit_falls_back
                  (lit "[Grp] My Show - Episode Final [BD].mp4") eq_refl)).
Defined.

(** ** The two operations in sequence *)

Lemma splitext_concat p : fst (splitext p) ++ snd (splitext p) = p.
Proof. rewrite splitext_split_extension. apply split_extension_concat. Qed.

Lemma remove_invalid_app a b :
  remove_invalid (a ++ b) = remove_invalid a ++ remove_invalid b.
Proof. apply filter_app. Qed.

Lemma digit_not_invalid c : is_digit c = true -> is_invalid c = false.
Proof.
  intros D. destruct (is_invalid c) eqn:I; [|reflexivity].
  unfold is_invalid in I. apply existsb_exists in I.
  destruct I as (x & X & E). apply Ascii.eqb_eq in E. subst x.
  simpl in X.
  repeat (destruct X as [<-|X]; [discriminate D|]). destruct X.
Qed.

Lemma remove_invalid_digits s :
  Forall (fun c => is_digit c = true) s -> remove_invalid s = s.
Proof.
  induction 1 as [|c t D _ IH]; [reflexivity|].
  unfold remove_invalid in *. simpl.
  rewrite (digit_not_invalid c D). simpl. f_equal. exact IH.
Qed.

Lemma digits_no_sign s :
  Forall (fun c => is_digit c = true) s -> starts_with_sign s = false.
Proof.
  intros F. destruct F as [|c t D _]; [reflexivity|].
  simpl. unfold is_sign.
  destruct (Ascii.eqb_spec c "+"%char) as [->|_]; [discriminate D|].
  destruct (Ascii.eqb_spec c "-"%char) as [->|_]; [discriminate D|].
  reflexivity.
Qed.

Lemma left_pad_digits width s :
  Forall (fun c => is_digit c = true) s ->
  Forall (fun c => is_digit c = true) (left_pad width s).
Proof.
  intros F. unfold left_pad. apply Forall_app. split; [|exact F].
  induction (width - length s) as [|n IH]; simpl; constructor;
    [reflexivity|exact IH].
Qed.

(** X3. When no rule matches, the name sent back is the original file name
    with the reserved characters deleted; a file name without reserved
    characters comes back unchanged. *)
Theorem renamed_at_fallback filename :
  first_match patterns (fst (splitext filename)) = None ->
  renamed filename = Ok (remove_invalid filename)
  /\ ((forall c, In c filename -> ~ In c invalid_chars) ->
      renamed filename = Ok filename).
Proof.
  intros F.
  assert (R : renamed filename = Ok (remove_invalid filename)).
  { unfold renamed, extract_anime_info. cbv zeta.
    rewrite for_patterns_first_match, F. simpl bind.
    unfold generate_new_filename, new_filename_of.
    rewrite re_sub_invalid, splitext_concat. reflexivity. }
  split; [exact R|].
  intros C. rewrite R, (remove_invalid_id _ C). reflexivity.
Qed.

Lemma renamed_at_fallback_witness :
  renamed (lit "Movie: The <Final> Cut.mkv")
  = Ok (lit "Movie The Final Cut.mkv")
  /\ renamed (lit "home video.mov") = Ok (lit "home video.mov").
Proof.
  split.
  - refine (proj1 (renamed_at_fallback (lit "Movie: The <Final> Cut.mkv") _)).
    vm_compute. reflexivity.
  - refine (proj2 (renamed_at_fallback (lit "home video.mov") _) _);
      [vm_compute; reflexivity|].
    intros c I J. vm_compute in I, J.
    repeat (destruct I as [<-|I]; [repeat (destruct J as [J|J];
                                            [discriminate J|]); exact J|]).
    exact I.
Defined.

(** X4. When a rule matches, the name sent back is the cleaned name
    without its reserved characters, then " - Episode ", then the digits of
    the episode padded with zeros to at least two, then the extension
    without its reserved characters: the marker and the digits are never
    touched by the removal. *)
Theorem renamed_at_match filename m :
  first_match patterns (fst (splitext filename)) = Some m ->
  exists anime_name digits,
    extract_anime_info filename = Ok (anime_name, Some digits)
    /\ digits <> []
    /\ Forall (fun c => is_digit c = true) (left_pad 2 digits)
    /\ 2 <= length (left_pad 2 digits)
    /\ renamed filename
       = Ok (remove_invalid anime_name ++ lit " - Episode "
             ++ left_pad 2 digits
             ++ remove_invalid (snd (splitext filename))).
Proof.
  intros F.
  destruct (episode_at_match filename m F) as (a & digits & E & N & D).
  exists a, digits. repeat split; auto.
  - apply left_pad_digits, D.
  - unfold left_pad. rewrite length_app, repeat_length. lia.
  - unfold renamed. rewrite E. simpl bind.
    unfold generate_new_filename, new_filename_of. rewrite re_sub_invalid.
    destruct digits as [|c t]; [congruence|]. cbv zeta.
    rewrite (zfill_left_pad 2 (c :: t) (digits_no_sign _ D)).
    rewrite !remove_invalid_app.
    rewrite (remove_invalid_digits _ (left_pad_digits 2 _ D)).
    reflexivity.
Qed.

Lemma renamed_at_match_witness :
  exists anime_name digits,
    extract_anime_info (lit "[Grp] What? - 7 [720p].m:kv")
    = Ok (anime_name, Some digits)
    /\ renamed (lit "[Grp] What? - 7 [720p].m:kv")
       = Ok (remove_invalid anime_name ++ lit " - Episode "
             ++ left_pad 2 digits
             ++ remove_invalid (snd (splitext (lit "[Grp] What? - 7 [720p].m:kv")))).
Proof.
  destruct (first_match patterns
              (fst (splitext (lit "[Grp] What? - 7 [720p].m:kv"))))
    as [m|] eqn:F; [|vm_compute in F; discriminate].
  destruct (renamed_at_match (lit "[Grp] What? - 7 [720p].m:kv") m F)
    as (a & digits & E & _ & _ & _ & R).
  exists a, digits. split; [exact E|exact R].
Defined.

(** ** The characters of a cleaned name *)

Lemma sub_scan_chars pat repl c s : forall p skip,
  In c (sub_scan pat repl p s skip) -> In c repl \/ In c s.
Proof.
  induction s as [|x t IH]; intros p skip H.
  - destruct skip; [|contradiction].
    rewrite sub_scan_0 in H. cbv zeta in H.
    destruct (match_here pat p [] false) as [st|]; [|contradiction].
    destruct (length (rest st) <? length (@nil ascii)); [auto|].
    apply in_app_or in H. destruct H as [H|H]; [auto|].
    destruct (match_here pat p [] true); [auto|contradiction].
  - destruct skip as [|k].
    + rewrite sub_scan_0 in H. cbv zeta in H.
      assert (Copy : In c (x :: sub_scan pat repl (Some x) t 0) ->
                     In c repl \/ In c (x :: t)).
      { intros [->|J]; [right; left; reflexivity|].
        destruct (IH _ _ J); [auto|right; right; assumption]. }
      assert (Repl : forall n, In c (repl ++ sub_scan pat repl (Some x) t n) ->
                               In c repl \/ In c (x :: t)).
      { intros n J. apply in_app_or in J. destruct J as [J|J]; [auto|].
        destruct (IH _ _ J); [auto|right; right; assumption]. }
      destruct (match_here pat p (x :: t) false) as [st|]; [|auto].
      destruct (length (rest st) <? length (x :: t)); [eauto|].
      apply in_app_or in H. destruct H as [H|H]; [auto|].
      destruct (match_here pat p (x :: t) true); eauto.
    + simpl in H. destruct (IH _ _ H); [auto|right; right; assumption].
Qed.

Lemma re_sub_chars pat repl s c :
  In c (re_sub pat repl s) -> In c repl \/ In c s.
Proof. apply sub_scan_chars. Qed.

Lemma squeeze_chars f repl c s : forall b,
  In c (squeeze f repl b s) -> In c repl \/ (In c s /\ f c = false).
Proof.
  induction s as [|x t IH]; intros b H; [contradiction|].
  simpl in H. destruct (f x) eqn:E.
  - assert (J : In c repl \/ In c (squeeze f repl true t)).
    { destruct b; [auto|]. apply in_app_or in H. exact H. }
    destruct J as [J|J]; [auto|].
    destruct (IH _ J) as [K|[K L]]; [auto|]. right. split; [right|]; auto.
  - destruct H as [->|H]; [right; split; [left; reflexivity|exact E]|].
    destruct (IH _ H) as [K|[K L]]; [auto|]. right. split; [right|]; auto.
Qed.

Lemma strip_chars s c : In c (strip s) -> In c s.
Proof.
  unfold strip. intros H.
  destruct (rstrip_prefix (lstrip s)) as [w E].
  destruct (lstrip_suffix s) as [v F].
  rewrite F. apply in_or_app. right. rewrite E. apply in_or_app. auto.
Qed.

(** After the first stage of the clean-up a name holds no separator, and
    its only whitespace character is the space. *)
Lemma tidy_separators_chars s c :
  In c (tidy_separators s) ->
  cmatch false (CIn ["."; "-"; "_"]%char) c = false
  /\ (is_space c = true -> c = " "%char).
Proof.
  unfold tidy_separators. intros H. apply strip_chars in H.
  unfold spaces_re, separators_re in H. rewrite !re_sub_plus in H.
  apply squeeze_chars in H. destruct H as [H|[H W]].
  - destruct H as [<-|[]]. split; [reflexivity|auto].
  - change (cmatch false CSpace c) with (is_space c) in W.
    split; [|congruence].
    apply squeeze_chars in H. destruct H as [H|[_ H]]; [|exact H].
    destruct H as [<-|[]]. vm_compute in W. discriminate W.
Qed.

Lemma clean_name_chars s c :
  In c (clean_name s) ->
  cmatch false (CIn ["."; "-"; "_"]%char) c = false
  /\ (is_space c = true -> c = " "%char).
Proof.
  unfold clean_name, drop_quality. intros H. apply strip_chars in H.
  apply re_sub_chars in H. destruct H as [[]|H].
  apply (tidy_separators_chars _ _ H).
Qed.

(** X5. When a rule matches, the name returned holds none of the
    separators [.], [-] and [_], and the only whitespace character it can
    hold is the plain space: tabs, line breaks and no-break spaces never
    survive the clean-up. *)
Theorem name_characters_at_match filename m :
  first_match patterns (fst (splitext filename)) = Some m ->
  exists anime_name episode,
    extract_anime_info filename = Ok (anime_name, episode)
    /\ forall c,
         In c anime_name ->
         ~ In c ["."; "-"; "_"]%char /\ (is_space c = true -> c = " "%char).
Proof.
  intros F.
  destruct (extract_at_match filename m F) as (g & episode & _ & _ & E).
  exists (clean_name (strip g)), episode. split; [exact E|].
  intros c I. destruct (clean_name_chars _ _ I) as [S W].
  split; [|exact W]. intros J. simpl in S, J.
  destruct J as [<-|[<-|[<-|[]]]]; discriminate S.
Qed.

Lemma name_characters_at_match_witness :
  exists anime_name episode,
    extract_anime_info
      (map ascii_of_nat [91; 120; 93; 65; 9; 45; 95; 46; 66; 160; 45; 49; 46; 109; 107; 118])
    = Ok (anime_name, episode)
    /\ forall c, In c anime_name -> ~ In c ["."; "-"; "_"]%char.
Proof.
  destruct (first_match patterns
              (fst (splitext
                 (map ascii_of_nat
                      [91; 120; 93; 65; 9; 45; 95; 46; 66; 160; 45; 49; 46; 109; 107; 118]))))
    as [m|] eqn:F; [|vm_compute in F; discriminate].
  destruct (name_characters_at_match _ m F) as (a & e & E & C).
  exists a, e. split; [exact E|]. intros c I. apply (C c I).
Defined.

(** ** Cleaning a name twice *)

Lemma squeeze_none f repl s :
  (forall c, In c s -> f c = false) ->
  forall b, squeeze f repl b s = s.
Proof.
  induction s as [|x t IH]; intros H b; [reflexivity|].
  simpl. rewrite (H x (or_introl eq_refl)). f_equal.
  apply IH. intros c I. apply H. right. exact I.
Qed.

Lemma squeeze_in_run s :
  no_leading_space s = true ->
  squeeze is_space (lit " ") true s = squeeze is_space (lit " ") false s.
Proof.
  destruct s as [|c t]; [reflexivity|].
  simpl. intros H. apply negb_true_iff in H. rewrite H. reflexivity.
Qed.

Lemma squeeze_single_spaced_id s :
  single_spaced s = true -> squeeze is_space (lit " ") false s = s.
Proof.
  induction s as [|c t IH]; [reflexivity|].
  cbn [single_spaced squeeze]. intros H.
  apply andb_true_iff in H. destruct H as [H1 H2].
  destruct (is_space c) eqn:C.
  - apply andb_true_iff in H1. destruct H1 as [E L].
    apply Ascii.eqb_eq in E. subst c.
    rewrite (squeeze_in_run t L), (IH H2). reflexivity.
  - rewrite (IH H2). reflexivity.
Qed.

Lemma tidy_separators_idempotent s :
  tidy_separators (tidy_separators s) = tidy_separators s.
Proof.
  pose proof (tidy_separators_normalised s) as N.
  pose proof (tidy_separators_chars s) as C.
  remember (tidy_separators s) as t eqn:T. clear T.
  unfold normalised in N. apply andb_true_iff in N. destruct N as [N S].
  apply andb_true_iff in N. destruct N as [L R].
  unfold tidy_separators, separators_re, spaces_re.
  rewrite !re_sub_plus.
  rewrite (squeeze_none _ _ t (fun c I => proj1 (C c I))).
  change (cmatch false CSpace) with is_space.
  rewrite (squeeze_single_spaced_id t S). apply (strip_id t L R).
Qed.

(** X6. The first stage of the clean-up (separators to spaces, whitespace
    collapsed, trimmed) is idempotent: on its own result it changes
    nothing.  The whole clean-up is not: deleting a quality indicator can
    leave two spaces that a second pass collapses. *)
Theorem tidy_twice :
  (forall s, tidy_separators (tidy_separators s) = tidy_separators s)
  /\ (forall s,
        re_sub quality_re [] (tidy_separators s) = tidy_separators s ->
        clean_name (clean_name s) = clean_name s)
  /\ clean_name (lit "Great_720p_Anime") = lit "Great  Anime"
  /\ clean_name (clean_name (lit "Great_720p_Anime")) = lit "Great Anime".
Proof.
  split; [exact tidy_separators_idempotent|].
  split; [|split; vm_compute; reflexivity].
  intros s Q. unfold clean_name.
  rewrite (drop_quality_id _ (tidy_separators_normalised s) Q).
  rewrite tidy_separators_idempotent.
  apply (drop_quality_id _ (tidy_separators_normalised s) Q).
Qed.

Lemma tidy_twice_witness :
  clean_name (clean_name (lit "My_Show..Name  ")) = clean_name (lit "My_Show..Name  ").
Proof.
  apply (proj1 (proj2 tidy_twice)). vm_compute. reflexivity.
Defined.

(** ** [handle_document] and [handle_text] *)

Lemma renamed_ok file_name :
  exists anime_name episode,
    extract_anime_info file_name = Ok (anime_name, episode)
    /\ renamed file_name
       = Ok (remove_invalid (new_filename_of anime_name episode file_name)).
Proof.
  destruct (for_patterns_ok patterns (fst (splitext file_name)) patterns_safe)
    as (a & e & E).
  exists a, e. split; [exact E|].
  unfold renamed, extract_anime_info. cbv zeta. rewrite E. simpl bind.
  unfold generate_new_filename. rewrite re_sub_invalid. reflexivity.
Qed.

Lemma str_eqb_eq a : forall b, str_eqb a b = true -> a = b.
Proof.
  induction a as [|x a IH]; intros [|y b] H; try discriminate; [reflexivity|].
  simpl in H. apply andb_true_iff in H. destruct H as [E H].
  apply Ascii.eqb_eq in E. subst y. f_equal. apply IH, H.
Qed.

Lemma split_last_under_temp new_filename :
  existsb (Ascii.eqb slash) new_filename = false ->
  split_last slash (lit "temp/" ++ new_filename)
  = Some (lit "temp", slash :: new_filename).
Proof.
  intros H. rewrite split_last_app.
  apply split_last_none in H. rewrite H. reflexivity.
Qed.

(** X7. A video file of at most 1000 * 1024 * 1024 bytes is always
    planned for renaming, never refused and never an exception: the
    download goes to "temp/" followed by the original file name, and the
    new path is "temp/" followed by the new name.  The new name holds
    neither a slash nor a backslash, so the only directory part of the new
    path is "temp". *)
Theorem accepted_document_plan file_name file_size :
  is_video file_name = true ->
  (file_size <= 1000 * 1024 * 1024)%Z ->
  exists new_filename,
    handle_document_plan file_name file_size
    = Ok (Rename (lit "temp/" ++ file_name) (lit "temp/" ++ new_filename)
                 new_filename)
    /\ renamed file_name = Ok new_filename
    /\ (forall c, In c new_filename -> c <> slash /\ c <> backslash)
    /\ split_last slash (lit "temp/" ++ new_filename)
       = Some (lit "temp", slash :: new_filename).
Proof.
  intros V Z.
  destruct (renamed_ok file_name) as (a & e & _ & R).
  exists (remove_invalid (new_filename_of a e file_name)).
  assert (C : forall c,
            In c (remove_invalid (new_filename_of a e file_name)) ->
            c <> slash /\ c <> backslash).
  { intros c I. apply remove_invalid_clean in I.
    split; intros ->; apply I; simpl; tauto. }
  repeat split; try apply (C c H).
  - unfold handle_document_plan, too_large. rewrite V. simpl negb. cbv iota.
    destruct (Z.ltb_spec (1000 * 1024 * 1024) file_size); [lia|].
    rewrite R. reflexivity.
  - exact R.
  - apply split_last_under_temp.
    destruct (existsb (Ascii.eqb slash)
                (remove_invalid (new_filename_of a e file_name))) eqn:X;
      [|reflexivity].
    apply existsb_exists in X. destruct X as (c & I & E).
    apply Ascii.eqb_eq in E. subst c. destruct (C _ I) as [N _].
    congruence.
Qed.

Lemma accepted_document_plan_witness :
  exists new_filename,
    handle_document_plan (lit "a/b\c - 3.MKV") 1048576000
    = Ok (Rename (lit "temp/a/b\c - 3.MKV") (lit "temp/" ++ new_filename)
                 new_filename)
    /\ split_last slash (lit "temp/" ++ new_filename)
       = Some (lit "temp", slash :: new_filename).
Proof.
  destruct (accepted_document_plan (lit "a/b\c - 3.MKV") 1048576000)
    as (n & P & _ & _ & S); [reflexivity|vm_compute; discriminate|].
  exists n. split; [exact P|exact S].
Defined.

Lemma existsb_map_lower (f : ascii -> bool) s :
  (forall c, f (lower c) = f c) ->
  existsb f (map lower s) = existsb f s.
Proof.
  intros H. induction s as [|c t IH]; [reflexivity|].
  simpl. rewrite H, IH. reflexivity.
Qed.

Lemma lower_is_dot c : Ascii.eqb dot (lower c) = Ascii.eqb dot c.
Proof. destruct c as [[] [] [] [] [] [] [] []]; reflexivity. Qed.

Lemma lower_is_slash c : Ascii.eqb slash (lower c) = Ascii.eqb slash c.
Proof. destruct c as [[] [] [] [] [] [] [] []]; reflexivity. Qed.

Lemma lower_is_invalid c : is_invalid (lower c) = is_invalid c.
Proof. destruct c as [[] [] [] [] [] [] [] []]; reflexivity. Qed.

(** What makes a string an extension that [splitext] will cut off whole:
    a dot, then neither dot nor slash, and no reserved character. *)
Lemma video_extension_shape e :
  In (str_lower e) video_extensions ->
  exists e',
    e = dot :: e' /\ existsb (Ascii.eqb dot) e' = false
    /\ existsb (Ascii.eqb slash) e = false /\ remove_invalid e = e.
Proof.
  intros I.
  assert (P : (match str_lower e with
               | c :: t => Ascii.eqb dot c && negb (existsb (Ascii.eqb dot) t)
               | [] => false
               end = true)
              /\ existsb (Ascii.eqb slash) (str_lower e) = false
              /\ existsb is_invalid (str_lower e) = false).
  { simpl in I.
    destruct I as [<-|[<-|[<-|[<-|[<-|[<-|[<-|[]]]]]]]];
      repeat split; reflexivity. }
  destruct P as (P1 & P2 & P3). unfold str_lower in *.
  rewrite (existsb_map_lower _ e lower_is_slash) in P2.
  rewrite (existsb_map_lower _ e lower_is_invalid) in P3.
  destruct e as [|c e']; [discriminate|].
  change (Ascii.eqb dot (lower c)
          && negb (existsb (Ascii.eqb dot) (map lower e')) = true) in P1.
  rewrite (existsb_map_lower _ e' lower_is_dot), lower_is_dot in P1.
  apply andb_true_iff in P1. destruct P1 as [D N].
  apply Ascii.eqb_eq in D. subst c. apply negb_true_iff in N.
  exists e'. repeat split; auto.
  apply remove_invalid_id. intros x X J.
  assert (K : existsb is_invalid (dot :: e') = true).
  { apply existsb_exists. exists x. split; [exact X|].
    unfold is_invalid. apply existsb_exists. exists x.
    split; [exact J|apply Ascii.eqb_refl]. }
  congruence.
Qed.

Lemma is_video_split file_name :
  is_video file_name = true ->
  exists pre e, file_name = pre ++ e /\ In (str_lower e) video_extensions.
Proof.
  unfold is_video. intros H. apply existsb_exists in H.
  destruct H as (ext & I & E). unfold endswith in E.
  apply andb_true_iff in E. destruct E as [_ E]. apply str_eqb_eq in E.
  exists (firstn (length (str_lower file_name) - length ext) file_name),
         (skipn (length (str_lower file_name) - length ext) file_name).
  split; [symmetry; apply firstn_skipn|].
  unfold str_lower in *. rewrite <- skipn_map, E. exact I.
Qed.

(** X8. A file name the video test accepts ends with one of the listed
    extensions in some mix of upper and lower case.  [splitext] cuts off
    exactly that ending, and the new name ends with it unchanged, whenever
    a character other than a dot precedes it in the last component;
    otherwise [splitext] sees no extension at all. *)
Theorem video_extension_kept file_name :
  is_video file_name = true ->
  exists pre e,
    file_name = pre ++ e /\ In (str_lower e) video_extensions
    /\ ((existsb (fun c => negb (Ascii.eqb c dot)) (last_component pre) = true
         /\ splitext file_name = (pre, e)
         /\ exists front, renamed file_name = Ok (front ++ e))
        \/ (existsb (fun c => negb (Ascii.eqb c dot)) (last_component pre)
            = false
            /\ splitext file_name = (file_name, []))).
Proof.
  intros V. destruct (is_video_split file_name V) as (pre & e & P & I).
  exists pre, e. split; [exact P|]. split; [exact I|].
  destruct (video_extension_shape e I) as (e' & E & Nd & Ns & Ri).
  assert (S : split_last dot file_name = Some (pre, e)).
  { rewrite P, split_last_app. subst e. simpl.
    apply split_last_none in Nd. rewrite Nd. simpl.
    rewrite app_nil_r. reflexivity. }
  assert (X : splitext file_name
              = if existsb (fun c => negb (Ascii.eqb c dot))
                           (last_component pre)
                then (pre, e) else (file_name, [])).
  { rewrite splitext_split_extension. unfold split_extension.
    rewrite S, Ns. reflexivity. }
  destruct (existsb (fun c => negb (Ascii.eqb c dot)) (last_component pre));
    [left|right; auto].
  split; [reflexivity|]. split; [exact X|].
  destruct (renamed_ok file_name) as (a & ep & _ & R).
  unfold new_filename_of in R. rewrite X in R. simpl snd in R.
  destruct ep as [[|c t]|].
  - exists (remove_invalid a). rewrite R, remove_invalid_app, Ri. reflexivity.
  - exists (remove_invalid (a ++ lit " - Episode " ++ zfill 2 (c :: t))).
    rewrite R. cbv zeta.
    rewrite <- Ri at 2. rewrite <- remove_invalid_app, <- !app_assoc.
    reflexivity.
  - exists (remove_invalid a). rewrite R, remove_invalid_app, Ri. reflexivity.
Qed.

Lemma video_extension_kept_witness :
  exists pre e,
    lit "[Grp] Show - 07.MkV" = pre ++ e
    /\ In (str_lower e) video_extensions
    /\ splitext (lit "[Grp] Show - 07.MkV") = (pre, e)
    /\ exists front, renamed (lit "[Grp] Show - 07.MkV") = Ok (front ++ e).
Proof.
  destruct (video_extension_kept (lit "[Grp] Show - 07.MkV") eq_refl)
    as (pre & e & P & I & [(_ & S & F)|(_ & S)]).
  - exists pre, e. auto.
  - vm_compute in S. discriminate S.
Defined.

Lemma not_detected_is_no_digits digits :
  digits <> [] -> Forall (fun c => is_digit c = true) digits ->
  digits <> lit "Not detected".
Proof.
  intros _ F E. subst digits. inversion F as [|c t D _]. discriminate D.
Qed.

(** X9. [handle_text] never raises.  A text that does not start with
    "test:" gets the usage line.  Otherwise the file name is the rest of
    the text without the whitespace around it, the reply is the response
    filled with that file name, the detected name, the episode and the new
    name, and the episode line reads "Not detected" exactly when no rule
    matches. *)
Theorem handle_text_reply text :
  (startswith text (lit "test:") = false ->
   handle_text text
   = Ok (lit "Send me an anime file to rename, or use 'test: filename' to test parsing."))
  /\ (startswith text (lit "test:") = true ->
      exists anime_name episode new_filename,
        extract_anime_info (strip (skipn 5 text)) = Ok (anime_name, episode)
        /\ renamed (strip (skipn 5 text)) = Ok new_filename
        /\ handle_text text
           = Ok (response (strip (skipn 5 text)) anime_name episode
                          new_filename)
        /\ (episode_shown episode = lit "Not detected" <->
            first_match patterns (fst (splitext (strip (skipn 5 text))))
            = None)
        /\ no_leading_space (strip (skipn 5 text)) = true
        /\ no_trailing_space (strip (skipn 5 text)) = true).
Proof.
  split; intros S; unfold handle_text; rewrite S; [reflexivity|].
  cbv zeta. set (filename := strip (skipn 5 text)).
  destruct (for_patterns_ok patterns (fst (splitext filename)) patterns_safe)
    as (a & e & E).
  change (extract_anime_info filename = Ok (a, e)) in E.
  exists a, e, (generate_new_filename a e filename).
  split; [exact E|]. split; [unfold renamed; rewrite E; reflexivity|].
  split; [rewrite E; reflexivity|].
  split; [|split; [apply strip_no_leading|apply strip_no_trailing]].
  destruct (first_match patterns (fst (splitext filename))) as [m|] eqn:F.
  - destruct (episode_at_match filename m F) as (a' & digits & E' & N & D).
    rewrite E' in E. injection E as <- <-.
    split; [|discriminate]. intros X. exfalso.
    destruct digits as [|c t]; [congruence|].
    apply (not_detected_is_no_digits (c :: t) N D X).
  - unfold extract_anime_info in E. cbv zeta in E.
    rewrite for_patterns_first_match, F in E. injection E as <- <-.
    split; reflexivity.
Qed.

Lemma handle_text_reply_witness :
  exists anime_name episode new_filename,
    handle_text (lit "test:   [Grp] Show - 3.mkv  ")
    = Ok (response (lit "[Grp] Show - 3.mkv") anime_name episode new_filename)
    /\ renamed (lit "[Grp] Show - 3.mkv") = Ok new_filename.
Proof.
  destruct (proj2 (handle_text_reply (lit "test:   [Grp] Show - 3.mkv  "))
              eq_refl)
    as (a & e & n & _ & R & H & _).
  exists a, e, n. split; [exact H|exact R].
Defined.

(** ** Characters a rule cannot do without *)

Lemma cset_eqb_eq a b : cset_eqb a b = true -> a = b.
Proof.
  destruct a, b; simpl; intros H; try discriminate; try reflexivity.
  - apply str_eqb_eq in H. congruence.
  - apply Ascii.eqb_eq in H. congruence.
Qed.

Lemma matches_takes ic target r st st' :
  matches ic r st st' -> requires target r = true ->
  exists x, rest st = x ++ rest st' /\ existsb (cmatch ic target) x = true.
Proof.
  induction 1; simpl; intros R; try discriminate.
  - apply cset_eqb_eq in R. subst cs. exists [c]. simpl.
    split; [reflexivity|]. rewrite H. reflexivity.
  - destruct (matches_prefix ic _ _ _ H) as (x1 & E1 & _).
    destruct (matches_prefix ic _ _ _ H0) as (x2 & E2 & _).
    apply orb_true_iff in R. destruct R as [R|R].
    + destruct (IHmatches1 R) as (x & E & D).
      exists (x ++ x2). rewrite E, E2, app_assoc, existsb_app, D.
      split; reflexivity.
    + destruct (IHmatches2 R) as (x & E & D).
      exists (x1 ++ x). rewrite E1, E, app_assoc, existsb_app, D, orb_true_r.
      split; reflexivity.
  - apply andb_true_iff in R. destruct R as [R _]. auto.
  - apply andb_true_iff in R. destruct R as [_ R]. auto.
  - auto.
  - apply andb_true_iff in R. destruct R as [L R].
    apply cset_eqb_eq in R. subst cs. exists taken. split; [reflexivity|].
    destruct taken as [|c t].
    + destruct lo; [discriminate L|simpl in H; lia].
    + inversion H0; subst. simpl.
      match goal with D : cmatch ic target c = true |- _ => rewrite D end.
      reflexivity.
Qed.

Lemma needs_class pat target s :
  requires target (body pat) = true ->
  existsb (cmatch (ignorecase pat) target) s = false ->
  re_search pat s = None.
Proof.
  intros R D. destruct (re_search pat s) as [m|] eqn:H; [|reflexivity].
  destruct (re_search_sound_at _ _ _ H) as (pre & p & s0 & st & P & M & _).
  destruct (matches_takes _ target _ _ _ M R) as (x & E & X).
  simpl in E. rewrite P, E, !existsb_app, X, orb_true_r in D. discriminate.
Qed.

Lemma lit_dash ic c : cmatch ic (CLit "-") c = Ascii.eqb c "-".
Proof.
  destruct ic; [|reflexivity].
  destruct c as [[] [] [] [] [] [] [] []]; reflexivity.
Qed.

Lemma lit_dot ic c : cmatch ic (CLit ".") c = Ascii.eqb c ".".
Proof.
  destruct ic; [|reflexivity].
  destruct c as [[] [] [] [] [] [] [] []]; reflexivity.
Qed.

Lemma lit_open ic c : cmatch ic (CLit "[") c = Ascii.eqb c "[".
Proof.
  destruct ic; [|reflexivity].
  destruct c as [[] [] [] [] [] [] [] []]; reflexivity.
Qed.

Lemma lit_close ic c : cmatch ic (CLit "]") c = Ascii.eqb c "]".
Proof.
  destruct ic; [|reflexivity].
  destruct c as [[] [] [] [] [] [] [] []]; reflexivity.
Qed.

Lemma existsb_ext_in (f g : ascii -> bool) s :
  (forall c, f c = g c) -> existsb f s = existsb g s.
Proof.
  intros H. induction s as [|c t IH]; [reflexivity|].
  simpl. rewrite H, IH. reflexivity.
Qed.

(** X10. Each rule needs certain characters in the stem: the first an
    opening bracket and a dash, the second a dot, the third and the fifth a
    whitespace character, the fourth a dash.  So a stem with no dash, no
    dot and no whitespace is matched by no rule, whatever digits it holds,
    and [extract_anime_info] returns it as it is. *)
Theorem rules_need_characters stem :
  (existsb (fun c => Ascii.eqb c "[") stem = false ->
   re_search (Pattern subgroup_re true) stem = None)
  /\ (existsb (fun c => Ascii.eqb c "-") stem = false ->
      re_search (Pattern subgroup_re true) stem = None
      /\ re_search (Pattern dash_re true) stem = None)
  /\ (existsb (fun c => Ascii.eqb c ".") stem = false ->
      re_search (Pattern dotted_re true) stem = None)
  /\ (existsb is_space stem = false ->
      re_search (Pattern episode_re true) stem = None
      /\ re_search (Pattern trailing_re true) stem = None)
  /\ (existsb (fun c => Ascii.eqb c "-" || Ascii.eqb c "." || is_space c) stem
      = false ->
      first_match patterns stem = None
      /\ forall filename,
           fst (splitext filename) = stem ->
           extract_anime_info filename = Ok (stem, None)).
Proof.
  assert (Open : existsb (fun c => Ascii.eqb c "[") stem = false ->
                 re_search (Pattern subgroup_re true) stem = None).
  { intros H. apply (needs_class _ (CLit "[")); [reflexivity|].
    cbn [ignorecase].
    rewrite (existsb_ext_in _ (fun c => Ascii.eqb c "[") stem (lit_open true)).
    exact H. }
  assert (Dash : forall r, requires (CLit "-") r = true ->
                 existsb (fun c => Ascii.eqb c "-") stem = false ->
                 re_search (Pattern r true) stem = None).
  { intros r R H. apply (needs_class _ (CLit "-")); [exact R|].
    cbn [ignorecase].
    rewrite (existsb_ext_in _ (fun c => Ascii.eqb c "-") stem (lit_dash true)).
    exact H. }
  assert (Dot : existsb (fun c => Ascii.eqb c ".") stem = false ->
                re_search (Pattern dotted_re true) stem = None).
  { intros H. apply (needs_class _ (CLit ".")); [reflexivity|].
    cbn [ignorecase].
    rewrite (existsb_ext_in _ (fun c => Ascii.eqb c ".") stem (lit_dot true)).
    exact H. }
  assert (Space : forall r, requires CSpace r = true ->
                  existsb is_space stem = false ->
                  re_search (Pattern r true) stem = None).
  { intros r R H. apply (needs_class _ CSpace); [exact R|exact H]. }
  split; [exact Open|]. split; [|split; [exact Dot|split]].
  - intros H. split; apply Dash; auto.
  - intros H. split; apply Space; auto.
  - intros H.
    assert (Hd : existsb (fun c => Ascii.eqb c "-") stem = false
                 /\ existsb (fun c => Ascii.eqb c ".") stem = false
                 /\ existsb is_space stem = false).
    { clear Open Dash Dot Space. induction stem as [|c t IH]; [auto|].
      cbn [existsb] in *. apply orb_false_iff in H. destruct H as [H1 H2].
      apply orb_false_iff in H1. destruct H1 as [H1 H3].
      apply orb_false_iff in H1. destruct H1 as [H1 H4].
      rewrite H1, H3, H4. cbn [orb]. apply IH, H2. }
    destruct Hd as (H1 & H2 & H3).
    assert (F : first_match patterns stem = None).
    { apply first_match_none. unfold patterns. simpl map.
      repeat constructor; auto. }
    split; [exact F|]. intros filename E.
    unfold extract_anime_info. cbv zeta.
    rewrite for_patterns_first_match, E, F. reflexivity.
Qed.

Lemma rules_need_characters_witness :
  extract_anime_info (lit "Episode12_[720p].mkv")
  = Ok (lit "Episode12_[720p]", None).
Proof.
  refine (proj2 (proj2 (proj2 (proj2 (proj2
            (rules_need_characters (lit "Episode12_[720p]"))))) _)
            (lit "Episode12_[720p].mkv") _); reflexivity.
Defined.

(** ** Following the matcher on a text of known shape *)

Lemma rep_greedy_hit ic cs lo taken : forall s' p g n k r,
  forallb (cmatch ic cs) taken = true ->
  head_is (cmatch ic cs) s' = false ->
  lo <= n + length taken ->
  k (MState (prev_after p taken) s' g) = Some r ->
  rep_greedy ic cs lo (taken ++ s') p g n k = Some r.
Proof.
  induction taken as [|c t IH]; intros s' p g n k r F H L K.
  - simpl in L. rewrite Nat.add_0_r in L. apply Nat.leb_le in L.
    change (prev_after p []) with p in K.
    destruct s' as [|x s']; simpl; [rewrite L; exact K|].
    simpl in H. rewrite H, L. exact K.
  - simpl in F. apply andb_true_iff in F. destruct F as [C F].
    cbn [app rep_greedy]. rewrite C.
    rewrite (IH s' (Some c) g (S n) k r F H); [reflexivity| |].
    + simpl in L. lia.
    + rewrite prev_after_snoc with (p := p). exact K.
Qed.

Lemma rep_greedy_miss ic cs lo s : forall p g n k,
  (forall a b,
     s = a ++ b -> forallb (cmatch ic cs) a = true -> lo <= n + length a ->
     k (MState (prev_after p a) b g) = None) ->
  rep_greedy ic cs lo s p g n k = None.
Proof.
  induction s as [|c t IH]; intros p g n k H.
  - simpl. destruct (Nat.leb_spec lo n); [|reflexivity].
    apply (H [] []); [reflexivity|reflexivity|simpl; lia].
  - assert (Stop : (if lo <=? n then k (MState p (c :: t) g) else None)
                   = None).
    { destruct (Nat.leb_spec lo n); [|reflexivity].
      apply (H [] (c :: t)); [reflexivity|reflexivity|simpl; lia]. }
    cbn [rep_greedy]. destruct (cmatch ic cs c) eqn:C; [|exact Stop].
    rewrite IH; [exact Stop|].
    intros a b E F L. rewrite prev_after_snoc with (p := p).
    apply H; [simpl; f_equal; exact E|simpl; rewrite C; exact F|simpl; lia].
Qed.

Lemma rep_lazy_hit ic cs lo taken : forall s' p g n k r,
  forallb (cmatch ic cs) taken = true ->
  lo <= n + length taken ->
  (forall a b,
     taken = a ++ b -> b <> [] ->
     k (MState (prev_after p a) (b ++ s') g) = None) ->
  k (MState (prev_after p taken) s' g) = Some r ->
  rep_lazy ic cs lo (taken ++ s') p g n k = Some r.
Proof.
  induction taken as [|c t IH]; intros s' p g n k r F L H K.
  - simpl in L. rewrite Nat.add_0_r in L. apply Nat.leb_le in L.
    change (prev_after p []) with p in K.
    destruct s' as [|x s']; simpl; rewrite L, K; reflexivity.
  - simpl in F. apply andb_true_iff in F. destruct F as [C F].
    cbn [app rep_lazy].
    assert (N : (if lo <=? n then k (MState p (c :: t ++ s') g) else None)
                = None).
    { destruct (lo <=? n); [|reflexivity].
      apply (H [] (c :: t)); [reflexivity|discriminate]. }
    rewrite N, C. apply IH; auto.
    + simpl in L. lia.
    + intros a b E Nb. rewrite prev_after_snoc with (p := p).
      apply H; [simpl; f_equal; exact E|exact Nb].
    + rewrite prev_after_snoc with (p := p). exact K.
Qed.

Lemma run_one_miss ic cs st k :
  head_is (cmatch ic cs) (rest st) = false -> run ic (One cs) st k = None.
Proof.
  simpl. destruct (rest st) as [|c t]; [reflexivity|].
  simpl. intros H. rewrite H. reflexivity.
Qed.

Lemma firstn_prefix (x y : str) :
  firstn (length (x ++ y) - length y) (x ++ y) = x.
Proof.
  rewrite length_app.
  replace (length x + length y - length y) with (length x + 0) by lia.
  rewrite firstn_app_2. simpl. apply app_nil_r.
Qed.

Lemma lstrip_spaces a b :
  forallb is_space a = true -> lstrip (a ++ b) = lstrip b.
Proof.
  induction a as [|c t IH]; [reflexivity|].
  simpl. intros H. apply andb_true_iff in H. destruct H as [C H].
  rewrite C. apply IH, H.
Qed.

Lemma forallb_any ic s :
  existsb (Ascii.eqb newline) s = false -> forallb (cmatch ic CAny) s = true.
Proof.
  induction s as [|c t IH]; [reflexivity|].
  cbn [existsb forallb cmatch]. intros H.
  apply orb_false_iff in H. destruct H as [C H].
  rewrite Ascii.eqb_sym in C. rewrite C. apply IH, H.
Qed.

Lemma digit_not_space c : is_digit c = true -> is_space c = false.
Proof.
  destruct c as [[] [] [] [] [] [] [] []]; vm_compute; intros H;
    first [reflexivity|discriminate H].
Qed.

(** A suffix of a text that does not end in whitespace starts, after its
    own leading whitespace, with one of its characters. *)
Lemma lstrip_suffix_head a b rest q :
  no_trailing_space (a ++ b) = true -> b <> [] ->
  (forall c, In c (a ++ b) -> q c = false) ->
  head_is q (lstrip (b ++ rest)) = false.
Proof.
  intros T N Q.
  assert (Tb : no_trailing_space b = true).
  { unfold no_trailing_space in *. rewrite rev_app_distr in T.
    destruct (rev b) as [|x r] eqn:E; [|exact T].
    apply (f_equal (@rev ascii)) in E. rewrite rev_involutive in E.
    contradiction. }
  rewrite lstrip_app.
  destruct (lstrip b) as [|x l] eqn:E.
  - exfalso. clear - Tb N E. unfold no_trailing_space in Tb.
    assert (A : forallb is_space b = true).
    { clear Tb N. induction b as [|c t IH]; [reflexivity|].
      simpl in E. destruct (is_space c) eqn:C; [|discriminate].
      simpl. rewrite C. apply IH, E. }
    destruct (rev b) as [|x r] eqn:R.
    + apply (f_equal (@rev ascii)) in R. rewrite rev_involutive in R.
      contradiction.
    + simpl in Tb. apply negb_true_iff in Tb.
      assert (I : In x b) by (apply in_rev; rewrite R; left; reflexivity).
      rewrite forallb_forall in A. rewrite (A x I) in Tb. discriminate.
  - simpl. apply Q. apply in_or_app. right.
    destruct (lstrip_suffix b) as [w F]. rewrite F, E.
    apply in_or_app. right. left. reflexivity.
Qed.

Lemma dash_sep_miss ic R s p g k :
  head_is (fun c => Ascii.eqb c "-") (lstrip s) = false ->
  run ic (Seq (star CSpace) (Seq (chr "-") R)) (MState p s g) k = None.
Proof.
  intros H. cbn [run star chr rest prev marks].
  apply rep_greedy_miss. intros a b E F _. cbn [rest].
  destruct b as [|c t]; [reflexivity|].
  rewrite lit_dash. destruct (Ascii.eqb c "-") eqn:C; [|reflexivity].
  exfalso. apply Ascii.eqb_eq in C. subst c.
  rewrite E, (lstrip_spaces a _ F) in H. discriminate H.
Qed.

(** The fourth rule, and the tail of the first, on a name, a dash between
    optional whitespace, and digits. *)
Lemma dash_re_hit ic p g body sp1 sp2 digits tail :
  body <> [] ->
  existsb (Ascii.eqb newline) body = false ->
  existsb (fun c => Ascii.eqb c "-") body = false ->
  no_trailing_space body = true ->
  forallb is_space sp1 = true -> forallb is_space sp2 = true ->
  digits <> [] -> forallb is_digit digits = true ->
  head_is is_digit tail = false ->
  exists fin,
    marks fin 1 = Some body /\ marks fin 2 = Some digits /\ rest fin = tail
    /\ forall k r,
         k fin = Some r ->
         run ic dash_re
             (MState p (body ++ sp1 ++ "-"%char :: sp2 ++ digits ++ tail) g) k
         = Some r.
Proof.
  intros Nb Nl Nd Tb S1 S2 Ng Dg Ht.
  exists (MState (prev_after (prev_after (Some "-"%char) sp2) digits) tail
                 (fun i => if Nat.eqb i 2 then Some digits
                           else if Nat.eqb i 1 then Some body else g i)).
  split; [reflexivity|]. split; [reflexivity|]. split; [reflexivity|].
  intros k r K.
  unfold dash_re. cbn [seq]. cbn [run lazy_plus rest prev marks].
  apply rep_lazy_hit.
  - apply forallb_any, Nl.
  - destruct body; [congruence|simpl; lia].
  - intros a b E Nb'. cbn [set_mark rest prev marks].
    apply dash_sep_miss.
    apply (lstrip_suffix_head a b _ (fun c => Ascii.eqb c "-")); auto.
    + rewrite <- E. exact Tb.
    + intros c I. rewrite <- E in I.
      destruct (Ascii.eqb c "-") eqn:C; [|reflexivity].
      assert (X : existsb (fun c => Ascii.eqb c "-") body = true)
        by (apply existsb_exists; exists c; auto).
      congruence.
  - cbn [set_mark rest prev marks star chr run].
    unfold consumed. cbn [rest]. rewrite firstn_prefix.
    apply rep_greedy_hit; [exact S1|reflexivity|lia|].
    cbn [rest marks]. rewrite lit_dash, Ascii.eqb_refl.
    apply rep_greedy_hit; [exact S2| |lia|].
    + destruct digits as [|d ds]; [congruence|].
      simpl in Dg. apply andb_true_iff in Dg. destruct Dg as [Dd _].
      simpl. apply digit_not_space, Dd.
    + cbn [plus run rest prev marks].
      apply rep_greedy_hit; [exact Dg|exact Ht| |].
      * destruct digits; [congruence|simpl; lia].
      * cbn [set_mark rest prev marks]. rewrite firstn_prefix. exact K.
Qed.

Lemma search_from_here pat p s st :
  match_here pat p s false = Some st ->
  search_from pat p s = Some ([], st, s).
Proof. intros H. destruct s; simpl; rewrite H; reflexivity. Qed.

Lemma search_from_skip pat pre : forall p s,
  (forall a b,
     pre = a ++ b -> b <> [] ->
     match_here pat (prev_after p a) (b ++ s) false = None) ->
  search_from pat p (pre ++ s) =
  match search_from pat (prev_after p pre) s with
  | Some (x, st, s0) => Some (pre ++ x, st, s0)
  | None => None
  end.
Proof.
  induction pre as [|c t IH]; intros p s H.
  - simpl. change (prev_after p []) with p.
    destruct (search_from pat p s) as [[[x st] s0]|]; reflexivity.
  - assert (H0 : match_here pat p (c :: t ++ s) false = None)
      by (apply (H [] (c :: t) eq_refl); discriminate).
    cbn [app search_from]. rewrite H0, IH.
    + rewrite prev_after_snoc with (p := p).
      destruct (search_from pat (prev_after p (c :: t)) s)
        as [[[x st] s0]|]; reflexivity.
    + intros a b E N. rewrite prev_after_snoc with (p := p).
      apply H; [simpl; f_equal; exact E|exact N].
Qed.

(** What the loop body returns for a match object whose first two groups
    are known. *)
Lemma on_match_value m captured digits :
  2 <= m_groups m ->
  m_marks m 1 = Some captured -> m_marks m 2 = Some digits -> digits <> [] ->
  on_match m = Ok (clean_name (strip captured), Some digits).
Proof.
  intros G M1 M2 N. unfold on_match, group_or, group.
  destruct (Nat.leb_spec 1 (m_groups m)); [|lia].
  destruct (Nat.leb_spec 2 (m_groups m)); [|lia].
  simpl. rewrite M1. simpl. rewrite M2.
  destruct digits; [congruence|reflexivity].
Qed.

Lemma first_match_fourth stem m :
  re_search (Pattern subgroup_re true) stem = None ->
  re_search (Pattern dotted_re true) stem = None ->
  re_search (Pattern episode_re true) stem = None ->
  re_search (Pattern dash_re true) stem = Some m ->
  first_match patterns stem = Some m.
Proof.
  intros R1 R2 R3 R4. unfold patterns. simpl map. cbn [first_match].
  rewrite R1, R2, R3, R4. reflexivity.
Qed.

(** X11. The form "Anime Name - 01" (fourth rule).  Let the stem be a name,
    optional whitespace, a dash, optional whitespace, digits, and a rest,
    where the name is not empty, holds no dash and no line break and does
    not end in whitespace, and the rest does not go on with a digit.  If
    none of the first three rules matches the stem, the result is the
    clean-up of the name and exactly those digits. *)
Theorem dash_form filename body sp1 sp2 digits tail :
  fst (splitext filename)
  = body ++ sp1 ++ "-"%char :: sp2 ++ digits ++ tail ->
  body <> [] ->
  existsb (Ascii.eqb newline) body = false ->
  existsb (fun c => Ascii.eqb c "-") body = false ->
  no_trailing_space body = true ->
  forallb is_space sp1 = true -> forallb is_space sp2 = true ->
  digits <> [] -> forallb is_digit digits = true ->
  head_is is_digit tail = false ->
  re_search (Pattern subgroup_re true) (fst (splitext filename)) = None ->
  re_search (Pattern dotted_re true) (fst (splitext filename)) = None ->
  re_search (Pattern episode_re true) (fst (splitext filename)) = None ->
  extract_anime_info filename = Ok (clean_name (strip body), Some digits).
Proof.
  intros E Nb Nl Nd Tb S1 S2 Ng Dg Ht R1 R2 R3.
  destruct (dash_re_hit true None no_marks body sp1 sp2 digits tail
              Nb Nl Nd Tb S1 S2 Ng Dg Ht) as (fin & M1 & M2 & _ & Run).
  assert (H : match_here (Pattern dash_re true) None
                (fst (splitext filename)) false = Some fin).
  { rewrite E. unfold match_here. apply Run. reflexivity. }
  assert (S : re_search (Pattern dash_re true) (fst (splitext filename))
              = Some (RMatch []
                        (firstn (length (fst (splitext filename))
                                 - length (rest fin))
                                (fst (splitext filename)))
                        (rest fin) (marks fin) 2)).
  { unfold re_search. rewrite (search_from_here _ _ _ _ H). reflexivity. }
  unfold extract_anime_info. cbv zeta.
  rewrite for_patterns_first_match.
  rewrite (first_match_fourth _ _ R1 R2 R3 S).
  apply on_match_value; auto.
Qed.

Lemma dash_form_witness :
  extract_anime_info (lit "My_Show  -07v2.mkv")
  = Ok (clean_name (strip (lit "My_Show")), Some (lit "07")).
Proof.
  apply (dash_form (lit "My_Show  -07v2.mkv") (lit "My_Show") (lit "  ") []
           (lit "07") (lit "v2")); try reflexivity; discriminate.
Defined.

Lemma match_here_run r ic p s :
  match_here (Pattern r ic) p s false
  = run ic r (MState p s no_marks) (fun st => Some st).
Proof. reflexivity. Qed.

Lemma subgroup_re_unfold :
  subgroup_re
  = Seq (chr "[") (Seq (lazy_star CAny) (Seq (chr "]")
        (Seq (star CSpace) dash_re))).
Proof. reflexivity. Qed.

(** The first rule cannot start at a character other than an opening
    bracket. *)
Lemma subgroup_needs_open p s :
  head_is (fun c => Ascii.eqb c "[") s = false ->
  match_here (Pattern subgroup_re true) p s false = None.
Proof.
  intros H. rewrite match_here_run, subgroup_re_unfold. cbn [run].
  apply run_one_miss. cbn [rest]. destruct s as [|c t]; [reflexivity|].
  cbn [head_is] in *. rewrite lit_open. exact H.
Qed.

Lemma head_not_in (q : ascii -> bool) a b rest :
  existsb q (a ++ b) = false -> b <> [] -> head_is q (b ++ rest) = false.
Proof.
  intros H N. destruct b as [|c t]; [congruence|].
  rewrite existsb_app in H. apply orb_false_iff in H. destruct H as [_ H].
  simpl in H. apply orb_false_iff in H. destruct H as [H _]. exact H.
Qed.

(** X12. The form "[SubGroup] Anime Name - 01 [Quality]" (first rule).
    Let the stem be a prefix without an opening bracket, a bracketed tag
    without a closing bracket or line break, optional whitespace, a name,
    optional whitespace, a dash, optional whitespace, digits, and a rest,
    where the name is not empty, holds no dash and no line break, and
    neither starts nor ends with whitespace, and the rest does not go on
    with a digit.  Then the result is the clean-up of the name and exactly
    those digits: the prefix, the tag and the rest play no part. *)
Theorem bracket_form filename pre tag sp0 body sp1 sp2 digits tail :
  fst (splitext filename)
  = pre ++ "["%char :: tag ++ "]"%char :: sp0 ++ body ++ sp1
    ++ "-"%char :: sp2 ++ digits ++ tail ->
  existsb (fun c => Ascii.eqb c "[") pre = false ->
  existsb (Ascii.eqb newline) tag = false ->
  existsb (fun c => Ascii.eqb c "]") tag = false ->
  forallb is_space sp0 = true ->
  body <> [] ->
  existsb (Ascii.eqb newline) body = false ->
  existsb (fun c => Ascii.eqb c "-") body = false ->
  no_leading_space body = true -> no_trailing_space body = true ->
  forallb is_space sp1 = true -> forallb is_space sp2 = true ->
  digits <> [] -> forallb is_digit digits = true ->
  head_is is_digit tail = false ->
  extract_anime_info filename = Ok (clean_name body, Some digits).
Proof.
  intros E Np Nlt Nct S0 Nb Nl Nd Lb Tb S1 S2 Ng Dg Ht.
  destruct (dash_re_hit true (prev_after (Some "]"%char) sp0) no_marks
              body sp1 sp2 digits tail Nb Nl Nd Tb S1 S2 Ng Dg Ht)
    as (fin & M1 & M2 & _ & Run).
  set (s := "["%char :: tag ++ "]"%char :: sp0 ++ body ++ sp1
            ++ "-"%char :: sp2 ++ digits ++ tail) in *.
  assert (H : match_here (Pattern subgroup_re true) (prev_after None pre) s
                false = Some fin).
  { rewrite match_here_run, subgroup_re_unfold. unfold s.
    cbn [run chr lazy_star star rest prev marks].
    rewrite lit_open, Ascii.eqb_refl.
    apply rep_lazy_hit; [apply forallb_any, Nlt|lia| |].
    - intros a b Eab N. cbn [rest].
      pose proof (head_not_in (fun c => Ascii.eqb c "]") a b
                    ("]"%char :: sp0 ++ body ++ sp1 ++ "-"%char :: sp2
                     ++ digits ++ tail)) as X.
      rewrite <- Eab in X. specialize (X Nct N).
      destruct (b ++ "]"%char :: sp0 ++ body ++ sp1 ++ "-"%char :: sp2
                ++ digits ++ tail) as [|c t]; [reflexivity|].
      rewrite lit_close. simpl in X. rewrite X. reflexivity.
    - cbn [rest marks]. rewrite lit_close, Ascii.eqb_refl.
      apply rep_greedy_hit; [exact S0| |lia|].
      + destruct body as [|c t]; [congruence|].
        simpl in Lb. apply negb_true_iff in Lb. exact Lb.
      + apply Run. reflexivity. }
  assert (S : re_search (Pattern subgroup_re true) (fst (splitext filename))
              = Some (RMatch (pre ++ [])
                        (firstn (length s - length (rest fin)) s)
                        (rest fin) (marks fin) 2)).
  { unfold re_search. rewrite E. fold s. rewrite search_from_skip.
    - rewrite (search_from_here _ _ _ _ H). reflexivity.
    - intros a b Eab N. apply subgroup_needs_open.
      apply (head_not_in (fun c => Ascii.eqb c "[") a b s);
        [rewrite <- Eab; exact Np|exact N]. }
  unfold extract_anime_info. cbv zeta.
  rewrite for_patterns_first_match. unfold patterns. simpl map.
  cbn [first_match]. rewrite S.
  rewrite <- (strip_id body Lb Tb) at 1.
  apply on_match_value; auto.
Qed.

Lemma bracket_form_witness :
  extract_anime_info (lit "x [Sub-Group 1]  Great_Anime -  05 [720p].mkv")
  = Ok (clean_name (lit "Great_Anime"), Some (lit "05")).
Proof.
  apply (bracket_form (lit "x [Sub-Group 1]  Great_Anime -  05 [720p].mkv")
           (lit "x ") (lit "Sub-Group 1") (lit "  ") (lit "Great_Anime")
           (lit " ") (lit "  ") (lit "05") (lit " [720p]"));
    try reflexivity; discriminate.
Defined.

Lemma followed_app_r f q a b :
  followed f q (a ++ b) = false -> followed f q b = false.
Proof.
  induction a as [|c t IH]; [auto|].
  simpl. intros H. apply orb_false_iff in H. destruct H as [_ H]. auto.
Qed.

Lemma followed_run f q a x t :
  followed f q (a ++ x :: t) = false -> a <> [] -> forallb f a = true ->
  q x = false.
Proof.
  induction a as [|c a IH]; [congruence|].
  intros H _ F. simpl in F. apply andb_true_iff in F. destruct F as [C F].
  simpl in H. apply orb_false_iff in H. destruct H as [H1 H2].
  destruct a as [|c' a'].
  - simpl in H1. rewrite C in H1. exact H1.
  - apply IH; [exact H2|discriminate|exact F].
Qed.

(** A run of whitespace at the start of a suffix of a text that does not
    end in whitespace stops inside that suffix. *)
Lemma space_run_inside a' : forall b b' s',
  a' ++ b' = b ++ s' -> forallb is_space a' = true ->
  no_trailing_space b = true -> b <> [] ->
  exists b0, b = a' ++ b0 /\ b0 <> [] /\ b' = b0 ++ s'.
Proof.
  induction a' as [|c a IH]; intros b b' s' E F T N.
  - exists b. auto.
  - destruct b as [|x b1]; [congruence|].
    simpl in E. injection E as <- E.
    simpl in F. apply andb_true_iff in F. destruct F as [C F].
    assert (N1 : b1 <> []).
    { intros ->. unfold no_trailing_space in T. simpl in T.
      rewrite C in T. discriminate. }
    assert (T1 : no_trailing_space b1 = true).
    { unfold no_trailing_space in *. simpl rev in T.
      destruct (rev b1) as [|y r] eqn:R; [|exact T].
      apply (f_equal (@rev ascii)) in R. rewrite rev_involutive in R.
      contradiction. }
    destruct (IH b1 b' s' E F T1 N1) as (b0 & E0 & N0 & E1).
    exists b0. split; [simpl; f_equal; exact E0|auto].
Qed.

Lemma no_trailing_suffix a b :
  no_trailing_space (a ++ b) = true -> b <> [] -> no_trailing_space b = true.
Proof.
  unfold no_trailing_space. rewrite rev_app_distr. intros T N.
  destruct (rev b) as [|x r] eqn:E; [|exact T].
  apply (f_equal (@rev ascii)) in E. rewrite rev_involutive in E.
  contradiction.
Qed.

(** After one or more whitespace characters at a place inside the name,
    the next character is one the name allows after whitespace. *)
Lemma plus_space_miss ic R q body a b s' p g k :
  body = a ++ b -> b <> [] -> no_trailing_space body = true ->
  followed is_space q body = false ->
  (forall p' s g' k', head_is q s = false ->
                      run ic R (MState p' s g') k' = None) ->
  run ic (Seq (plus CSpace) R) (MState p (b ++ s') g) k = None.
Proof.
  intros E N T Fo Miss. cbn [run plus rest prev marks].
  apply rep_greedy_miss. intros a' b' E' F L.
  apply Miss.
  assert (Tb : no_trailing_space b = true)
    by (apply (no_trailing_suffix a b); [rewrite <- E; exact T|exact N]).
  symmetry in E'.
  destruct (space_run_inside a' b b' s' E' F Tb N) as (b0 & E0 & N0 & E1).
  subst b'. destruct b0 as [|x t]; [congruence|]. cbn [app head_is].
  apply (followed_run is_space q a' x t); [|destruct a'; [simpl in L; lia|discriminate]|exact F].
  apply (followed_app_r is_space q a). rewrite <- E0, <- E. exact Fo.
Qed.

Lemma plus_miss ic cs s p g k :
  head_is (cmatch ic cs) s = false -> rep_greedy ic cs 1 s p g 0 k = None.
Proof.
  destruct s as [|c t]; [reflexivity|].
  cbn [head_is rep_greedy]. intros H. rewrite H. reflexivity.
Qed.

Lemma space_not_digit c : is_space c = true -> is_digit c = false.
Proof.
  intros H. destruct (is_digit c) eqn:D; [|reflexivity].
  rewrite (digit_not_space c D) in H. discriminate.
Qed.

Lemma head_digits_not_space digits tail :
  digits <> [] -> forallb is_digit digits = true ->
  head_is is_space (digits ++ tail) = false.
Proof.
  intros N D. destruct digits as [|d ds]; [congruence|].
  simpl in D. apply andb_true_iff in D. destruct D as [D _].
  simpl. apply digit_not_space, D.
Qed.

(** The fifth rule on a name, whitespace, digits, and then whitespace or
    the end. *)
Lemma trailing_re_hit ic p g body sp digits tail :
  body <> [] ->
  existsb (Ascii.eqb newline) body = false ->
  no_trailing_space body = true ->
  followed is_space is_digit body = false ->
  sp <> [] -> forallb is_space sp = true ->
  digits <> [] -> forallb is_digit digits = true ->
  tail = [] \/ head_is is_space tail = true ->
  exists fin,
    run ic trailing_re (MState p (body ++ sp ++ digits ++ tail) g)
        (fun st => Some st) = Some fin
    /\ marks fin 1 = Some body /\ marks fin 2 = Some digits.
Proof.
  intros Nb Nl Tb Fo Ns S Ng Dg Ht.
  assert (Hd : head_is is_digit tail = false).
  { destruct Ht as [->|Ht]; [reflexivity|].
    destruct tail as [|c t]; [reflexivity|]. apply space_not_digit, Ht. }
  assert (Last : exists fin,
            (fun st' =>
               run ic (Alt (One CSpace) AtEnd) st' (fun st => Some st))
              (MState (prev_after (prev_after (prev_after p body) sp) digits)
                      tail
                      (fun i => if Nat.eqb i 2 then Some digits
                                else if Nat.eqb i 1 then Some body else g i))
            = Some fin
            /\ marks fin 1 = Some body /\ marks fin 2 = Some digits).
  { destruct Ht as [->|Ht]; [eexists; split; [reflexivity|split; reflexivity]|].
    destruct tail as [|c t]; [discriminate Ht|]. cbn [head_is] in Ht.
    eexists. cbn [run rest cmatch]. rewrite Ht.
    split; [reflexivity|split; reflexivity]. }
  destruct Last as (fin & Lf & M1 & M2). exists fin.
  split; [|split; assumption].
  unfold trailing_re. cbn [seq]. cbn [run lazy_plus rest prev marks].
  apply rep_lazy_hit.
  - apply forallb_any, Nl.
  - destruct body; [congruence|simpl; lia].
  - intros a b E Nb'.
    refine (plus_space_miss ic
              (Seq (Grp 2 (plus CDigit)) (Alt (One CSpace) AtEnd))
              is_digit body a b _ _ _ (fun st => Some st) E Nb' Tb Fo _).
    intros p' s g' k' H. cbn [run plus rest prev marks].
    apply plus_miss, H.
  - cbn [set_mark rest prev marks plus run].
    unfold consumed. cbn [rest]. rewrite firstn_prefix.
    apply rep_greedy_hit;
      [exact S|apply head_digits_not_space; assumption| |].
    + destruct sp; [congruence|simpl; lia].
    + cbn [rest prev marks].
      apply rep_greedy_hit; [exact Dg|exact Hd| |].
      * destruct digits; [congruence|simpl; lia].
      * cbn [set_mark rest prev marks]. rewrite firstn_prefix. exact Lf.
Qed.

Lemma first_match_after before pat rest_ps stem m :
  Forall (fun q => re_search q stem = None) before ->
  re_search pat stem = Some m ->
  first_match (before ++ pat :: rest_ps) stem = Some m.
Proof.
  induction 1 as [|q l H _ IH]; intros R; simpl.
  - rewrite R. reflexivity.
  - rewrite H. apply IH, R.
Qed.

(** The result of [extract_anime_info] when the rule [pat] is the first to
    match and starts at the very beginning of the stem. *)
Lemma extract_by_rule filename before pat rest_ps fin captured digits :
  patterns = before ++ pat :: rest_ps ->
  Forall (fun q => re_search q (fst (splitext filename)) = None) before ->
  match_here pat None (fst (splitext filename)) false = Some fin ->
  2 <= groups (body pat) ->
  marks fin 1 = Some captured -> marks fin 2 = Some digits -> digits <> [] ->
  extract_anime_info filename = Ok (clean_name (strip captured), Some digits).
Proof.
  intros P N H G M1 M2 Nd.
  unfold extract_anime_info. cbv zeta.
  rewrite for_patterns_first_match, P.
  rewrite (first_match_after before pat rest_ps _
             (RMatch []
                (firstn (length (fst (splitext filename)) - length (rest fin))
                        (fst (splitext filename)))
                (rest fin) (marks fin) (groups (body pat))) N).
  - apply on_match_value; auto.
  - unfold re_search. rewrite (search_from_here _ _ _ _ H). reflexivity.
Qed.

(** X13. The form "Anime Name 01" (fifth rule).  Let the stem be a name,
    whitespace, digits, and then nothing or a rest that starts with
    whitespace, where the name is not empty, holds no line break, does not
    end in whitespace, and has no digit directly after whitespace.  If none
    of the first four rules matches the stem, the result is the clean-up of
    the name and exactly those digits. *)
Theorem trailing_form filename name sp digits tail :
  fst (splitext filename) = name ++ sp ++ digits ++ tail ->
  name <> [] ->
  existsb (Ascii.eqb newline) name = false ->
  no_trailing_space name = true ->
  followed is_space is_digit name = false ->
  sp <> [] -> forallb is_space sp = true ->
  digits <> [] -> forallb is_digit digits = true ->
  tail = [] \/ head_is is_space tail = true ->
  re_search (Pattern subgroup_re true) (fst (splitext filename)) = None ->
  re_search (Pattern dotted_re true) (fst (splitext filename)) = None ->
  re_search (Pattern episode_re true) (fst (splitext filename)) = None ->
  re_search (Pattern dash_re true) (fst (splitext filename)) = None ->
  extract_anime_info filename = Ok (clean_name (strip name), Some digits).
Proof.
  intros E Nb Nl Tb Fo Ns S Ng Dg Ht R1 R2 R3 R4.
  destruct (trailing_re_hit true None no_marks name sp digits tail
              Nb Nl Tb Fo Ns S Ng Dg Ht) as (fin & Run & M1 & M2).
  apply (extract_by_rule filename
           (map (fun r => Pattern r true)
                [subgroup_re; dotted_re; episode_re; dash_re])
           (Pattern trailing_re true) [] fin).
  - reflexivity.
  - repeat constructor; assumption.
  - rewrite E, match_here_run. exact Run.
  - simpl. lia.
  - exact M1.
  - exact M2.
  - exact Ng.
Qed.

Lemma trailing_form_witness :
  extract_anime_info (lit "Great Anime S2  12 [BD].mkv")
  = Ok (clean_name (strip (lit "Great Anime S2")), Some (lit "12")).
Proof.
  apply (trailing_form (lit "Great Anime S2  12 [BD].mkv")
           (lit "Great Anime S2") (lit "  ") (lit "12") (lit " [BD]"));
    try reflexivity; try discriminate.
  right. reflexivity.
Defined.

Lemma lit_ci x c : lower c = lower x -> cmatch true (CLit x) c = true.
Proof. intros H. cbn [cmatch]. rewrite H. apply Ascii.eqb_refl. Qed.

Lemma word_episode_unfold :
  word "Episode"
  = Seq (chr "E") (Seq (chr "p") (Seq (chr "i") (Seq (chr "s")
        (Seq (chr "o") (Seq (chr "d") (chr "e")))))).
Proof. reflexivity. Qed.

Lemma lower_e_not_space c :
  Ascii.eqb (lower c) "e" = true -> is_space c = false.
Proof.
  destruct c as [[] [] [] [] [] [] [] []]; vm_compute; intros H;
    first [reflexivity|discriminate H].
Qed.

Lemma lower_e_not_digit c :
  Ascii.eqb (lower c) "e" = true -> is_digit c = false.
Proof.
  destruct c as [[] [] [] [] [] [] [] []]; vm_compute; intros H;
    first [reflexivity|discriminate H].
Qed.

(** The word "Episode" in any mix of cases. *)
Lemma episode_word_chars W :
  str_lower W = lit "episode" ->
  exists w1 w2 w3 w4 w5 w6 w7,
    W = [w1; w2; w3; w4; w5; w6; w7]
    /\ lower w1 = lower "E" /\ lower w2 = lower "p" /\ lower w3 = lower "i"
    /\ lower w4 = lower "s" /\ lower w5 = lower "o" /\ lower w6 = lower "d"
    /\ lower w7 = lower "e".
Proof.
  intros H.
  destruct W as [|w1 [|w2 [|w3 [|w4 [|w5 [|w6 [|w7 [|w8 W]]]]]]]];
    try discriminate H.
  cbn [str_lower map] in H.
  injection H as H1 H2 H3 H4 H5 H6 H7.
  exists w1, w2, w3, w4, w5, w6, w7. repeat split; assumption.
Qed.

Lemma word_episode_miss R s p g k :
  head_is (fun c => Ascii.eqb (lower c) "e") s = false ->
  run true (Seq (word "Episode") R) (MState p s g) k = None.
Proof.
  intros H. rewrite word_episode_unfold. cbn [run chr rest].
  destruct s as [|c t]; [reflexivity|].
  cbn [head_is] in H. cbn [cmatch].
  change (lower "E") with "e"%char. rewrite H. reflexivity.
Qed.

Lemma word_episode_hit R W s p g k :
  str_lower W = lit "episode" ->
  run true (Seq (word "Episode") R) (MState p (W ++ s) g) k
  = run true R (MState (prev_after p W) s g) k.
Proof.
  intros H.
  destruct (episode_word_chars W H)
    as (w1 & w2 & w3 & w4 & w5 & w6 & w7 & -> & H1 & H2 & H3 & H4 & H5 & H6
        & H7).
  rewrite word_episode_unfold. cbn [run chr rest marks app].
  rewrite (lit_ci _ _ H1), (lit_ci _ _ H2), (lit_ci _ _ H3), (lit_ci _ _ H4),
    (lit_ci _ _ H5), (lit_ci _ _ H6), (lit_ci _ _ H7).
  reflexivity.
Qed.

(** The third rule on a name, whitespace, the word "Episode", whitespace,
    and digits. *)
Lemma episode_re_hit p g name sp1 W sp2 digits tail :
  name <> [] ->
  existsb (Ascii.eqb newline) name = false ->
  no_trailing_space name = true ->
  followed is_space (fun c => Ascii.eqb (lower c) "e") name = false ->
  sp1 <> [] -> forallb is_space sp1 = true ->
  str_lower W = lit "episode" ->
  sp2 <> [] -> forallb is_space sp2 = true ->
  digits <> [] -> forallb is_digit digits = true ->
  head_is is_digit tail = false ->
  exists fin,
    run true episode_re
        (MState p (name ++ sp1 ++ W ++ sp2 ++ digits ++ tail) g)
        (fun st => Some st) = Some fin
    /\ marks fin 1 = Some name /\ marks fin 2 = Some digits.
Proof.
  intros Nb Nl Tb Fo N1 S1 HW N2 S2 Ng Dg Ht.
  eexists. split; [|split].
  - unfold episode_re. cbn [seq].
    change (run true
              (Seq (Grp 1 (lazy_plus CAny))
                 (Seq (plus CSpace)
                    (Seq (word "Episode")
                       (Seq (plus CSpace) (Grp 2 (plus CDigit))))))
              (MState p (name ++ sp1 ++ W ++ sp2 ++ digits ++ tail) g)
              (fun st => Some st))
      with (rep_lazy true CAny 1 (name ++ sp1 ++ W ++ sp2 ++ digits ++ tail)
              p g 0
              (fun st' =>
                 run true
                   (Seq (plus CSpace)
                      (Seq (word "Episode")
                         (Seq (plus CSpace) (Grp 2 (plus CDigit)))))
                   (set_mark 1
                      (consumed
                         (MState p
                            (name ++ sp1 ++ W ++ sp2 ++ digits ++ tail) g)
                         st') st')
                   (fun st => Some st))).
    apply rep_lazy_hit.
    + apply forallb_any, Nl.
    + destruct name; [congruence|simpl; lia].
    + intros a b E Nb'.
      refine (plus_space_miss true
                (Seq (word "Episode")
                   (Seq (plus CSpace) (Grp 2 (plus CDigit))))
                (fun c => Ascii.eqb (lower c) "e") name a b _ _ _
                (fun st => Some st) E Nb' Tb Fo _).
      intros p' s g' k' H. apply word_episode_miss, H.
    + cbn [set_mark rest prev marks]. unfold consumed. cbn [rest].
      rewrite firstn_prefix.
      change (run true
                (Seq (plus CSpace)
                   (Seq (word "Episode")
                      (Seq (plus CSpace) (Grp 2 (plus CDigit)))))
                ?st ?k)
        with (rep_greedy true CSpace 1 (rest st) (prev st) (marks st) 0
                (fun st' =>
                   run true
                     (Seq (word "Episode")
                        (Seq (plus CSpace) (Grp 2 (plus CDigit))))
                     st' k)).
      cbn [rest prev marks].
      apply rep_greedy_hit; [exact S1| |destruct sp1; [congruence|simpl; lia]|].
      * destruct (episode_word_chars W HW) as (w1 & ? & ? & ? & ? & ? & ? & ->
                                               & H1 & _).
        cbn [app head_is]. apply lower_e_not_space.
        change (lower "E") with "e"%char in H1. rewrite H1. reflexivity.
      * rewrite (word_episode_hit _ W _ _ _ _ HW).
        cbn [run plus rest prev marks].
        apply rep_greedy_hit;
          [exact S2|apply head_digits_not_space; assumption| |].
        -- destruct sp2; [congruence|simpl; lia].
        -- cbn [rest prev marks].
           apply rep_greedy_hit; [exact Dg|exact Ht| |].
           ++ destruct digits; [congruence|simpl; lia].
           ++ cbn [set_mark rest prev marks]. unfold consumed. cbn [rest].
              rewrite firstn_prefix. reflexivity.
  - reflexivity.
  - reflexivity.
Qed.

(** X14. The form "Anime Name Episode 01" (third rule).  Let the stem be a
    name, whitespace, the word "Episode" in any mix of cases, whitespace,
    digits, and a rest, where the name is not empty, holds no line break,
    does not end in whitespace, and has no E directly after whitespace, and
    the rest does not go on with a digit.  If neither of the first two
    rules matches the stem, the result is the clean-up of the name and
    exactly those digits. *)
Theorem episode_word_form filename name sp1 W sp2 digits tail :
  fst (splitext filename) = name ++ sp1 ++ W ++ sp2 ++ digits ++ tail ->
  name <> [] ->
  existsb (Ascii.eqb newline) name = false ->
  no_trailing_space name = true ->
  followed is_space (fun c => Ascii.eqb (lower c) "e") name = false ->
  sp1 <> [] -> forallb is_space sp1 = true ->
  str_lower W = lit "episode" ->
  sp2 <> [] -> forallb is_space sp2 = true ->
  digits <> [] -> forallb is_digit digits = true ->
  head_is is_digit tail = false ->
  re_search (Pattern subgroup_re true) (fst (splitext filename)) = None ->
  re_search (Pattern dotted_re true) (fst (splitext filename)) = None ->
  extract_anime_info filename = Ok (clean_name (strip name), Some digits).
Proof.
  intros E Nb Nl Tb Fo N1 S1 HW N2 S2 Ng Dg Ht R1 R2.
  destruct (episode_re_hit None no_marks name sp1 W sp2 digits tail
              Nb Nl Tb Fo N1 S1 HW N2 S2 Ng Dg Ht) as (fin & Run & M1 & M2).
  apply (extract_by_rule filename
           (map (fun r => Pattern r true) [subgroup_re; dotted_re])
           (Pattern episode_re true)
           (map (fun r => Pattern r true) [dash_re; trailing_re]) fin).
  - reflexivity.
  - repeat constructor; assumption.
  - rewrite E, match_here_run. exact Run.
  - simpl. lia.
  - exact M1.
  - exact M2.
  - exact Ng.
Qed.

Lemma episode_word_form_witness :
  extract_anime_info (lit "My - Show  ePiSoDe 3v2.mp4")
  = Ok (clean_name (strip (lit "My - Show")), Some (lit "3")).
Proof.
  apply (episode_word_form (lit "My - Show  ePiSoDe 3v2.mp4")
           (lit "My - Show") (lit "  ") (lit "ePiSoDe") (lit " ") (lit "3")
           (lit "v2"));
    try reflexivity; discriminate.
Defined.

Lemma dotted_re_unfold :
  dotted_re
  = Seq (Grp 1 (lazy_plus CAny))
        (Seq (chr ".")
             (Alt (Seq (chr "S") (Seq (plus CDigit)
                       (Seq (chr "E") (Grp 2 (plus CDigit)))))
                  (Seq (word "Episode")
                       (Seq (chr ".") (Grp 3 (plus CDigit)))))).
Proof. reflexivity. Qed.

Lemma run_seq_one ic cs R c t p g k :
  run ic (Seq (One cs) R) (MState p (c :: t) g) k
  = if cmatch ic cs c then run ic R (MState (Some c) t g) k else None.
Proof. reflexivity. Qed.

Lemma run_seq_one_nil ic cs R p g k :
  run ic (Seq (One cs) R) (MState p [] g) k = None.
Proof. reflexivity. Qed.

Lemma run_alt ic a b st k :
  run ic (Alt a b) st k
  = match run ic a st k with
    | Some r => Some r
    | None => run ic b st k
    end.
Proof. reflexivity. Qed.

(** After a dot, the second rule wants an S or an E. *)
Lemma dot_marker_miss RA RB s p g k :
  head_is (fun c => Ascii.eqb c ".") s = false
  \/ head_is (fun c => Ascii.eqb (lower c) "s" || Ascii.eqb (lower c) "e")
             (tl s) = false ->
  run true (Seq (chr ".") (Alt (Seq (chr "S") RA) (Seq (word "Episode") RB)))
      (MState p s g) k = None.
Proof.
  intros H. unfold chr.
  destruct s as [|c t]; [apply run_seq_one_nil|].
  rewrite run_seq_one, lit_dot. destruct H as [H|H].
  - cbn [head_is] in H. rewrite H. reflexivity.
  - destruct (Ascii.eqb c "."); [|reflexivity].
    cbn [tl] in H. rewrite run_alt.
    rewrite (word_episode_miss RB t (Some c) g k).
    + destruct t as [|x t']; [reflexivity|].
      rewrite run_seq_one.
      cbn [head_is] in H. apply orb_false_iff in H. destruct H as [H _].
      cbn [cmatch]. change (lower "S") with "s"%char. rewrite H. reflexivity.
    + destruct t as [|x t']; [reflexivity|].
      cbn [head_is] in *. apply orb_false_iff in H. destruct H as [_ H].
      exact H.
Qed.

Lemma followed_head f q c x t :
  followed f q (c :: x :: t) = false -> f c = true -> q x = false.
Proof.
  simpl. intros H F. apply orb_false_iff in H. destruct H as [H _].
  rewrite F in H. exact H.
Qed.

(** Inside a name in which no dot is directly followed by an S or an E,
    the second rule finds no marker. *)
Lemma dotted_inside_miss RA RB name a b c rest' p g k :
  name = a ++ b -> b <> [] ->
  followed (fun c => Ascii.eqb c ".")
           (fun c => Ascii.eqb (lower c) "s" || Ascii.eqb (lower c) "e") name
  = false ->
  Ascii.eqb (lower c) "s" || Ascii.eqb (lower c) "e" = false ->
  run true (Seq (chr ".") (Alt (Seq (chr "S") RA) (Seq (word "Episode") RB)))
      (MState p (b ++ c :: rest') g) k = None.
Proof.
  intros E N Fo Hc. apply dot_marker_miss.
  destruct b as [|x b1]; [congruence|]. cbn [app head_is tl].
  destruct (Ascii.eqb x ".") eqn:X; [right|left; reflexivity].
  destruct b1 as [|y b2]; [exact Hc|]. cbn [app head_is].
  rewrite E in Fo. apply followed_app_r in Fo.
  apply (followed_head _ _ x y b2 Fo X).
Qed.

Lemma lower_s_not_e c :
  lower c = lower "e" -> Ascii.eqb (lower c) "s" = false.
Proof. intros ->. reflexivity. Qed.

(** The second rule on a name, a dot, S, digits, E, digits. *)
Lemma dotted_re_hit p g name s d1 e d2 tail :
  name <> [] ->
  existsb (Ascii.eqb newline) name = false ->
  followed (fun c => Ascii.eqb c ".")
           (fun c => Ascii.eqb (lower c) "s" || Ascii.eqb (lower c) "e") name
  = false ->
  lower s = lower "S" -> lower e = lower "E" ->
  d1 <> [] -> forallb is_digit d1 = true ->
  d2 <> [] -> forallb is_digit d2 = true ->
  head_is is_digit tail = false ->
  exists fin,
    run true dotted_re
        (MState p (name ++ "."%char :: s :: d1 ++ e :: d2 ++ tail) g)
        (fun st => Some st) = Some fin
    /\ marks fin 1 = Some name /\ marks fin 2 = Some d2.
Proof.
  intros Nb Nl Fo Hs He N1 D1 N2 D2 Ht.
  eexists. split; [|split].
  - rewrite dotted_re_unfold.
    change (run true (Seq (Grp 1 (lazy_plus CAny)) ?R) (MState ?p0 ?s0 ?g0) ?k)
      with (rep_lazy true CAny 1 s0 p0 g0 0
              (fun st' =>
                 run true R
                     (set_mark 1 (consumed (MState p0 s0 g0) st') st') k)).
    apply rep_lazy_hit.
    + apply forallb_any, Nl.
    + destruct name; [congruence|simpl; lia].
    + intros a b E Nb'. cbn [set_mark rest prev marks].
      apply (dotted_inside_miss _ _ name a b); auto.
    + cbn [set_mark rest prev marks]. unfold consumed. cbn [rest].
      rewrite firstn_prefix.
      cbn [run chr plus rest prev marks set_mark].
      rewrite lit_dot, Ascii.eqb_refl.
      rewrite (lit_ci "S" s Hs).
      rewrite (rep_greedy_hit true CDigit 1 d1 (e :: d2 ++ tail) _ _ 0 _
                 (MState (prev_after (Some e) d2) tail
                    (fun i => if Nat.eqb i 2 then Some d2
                              else if Nat.eqb i 1 then Some name else g i)));
        [reflexivity|exact D1| | |].
      * cbn [head_is cmatch]. apply lower_e_not_digit.
        change (lower "E") with "e"%char in He. rewrite He. reflexivity.
      * destruct d1; [congruence|simpl; lia].
      * cbn [rest marks]. rewrite (lit_ci "E" e He).
        apply rep_greedy_hit; [exact D2|exact Ht| |].
        -- destruct d2; [congruence|simpl; lia].
        -- cbn [set_mark rest prev marks]. unfold consumed. cbn [rest].
           rewrite firstn_prefix. reflexivity.
  - reflexivity.
  - reflexivity.
Qed.

(** X15. The form "Anime.Name.S01E01" (second rule).  Let the stem be a
    name, a dot, an S, digits, an E, digits, and a rest, where the name is
    not empty, holds no line break, and has no dot directly followed by an
    S or an E (in either case), and the rest does not go on with a digit.
    If the first rule does not match the stem, the result is the clean-up
    of the name and the digits after the E; the season digits are
    dropped. *)
Theorem dotted_form filename name s season e digits tail :
  fst (splitext filename)
  = name ++ "."%char :: s :: season ++ e :: digits ++ tail ->
  name <> [] ->
  existsb (Ascii.eqb newline) name = false ->
  followed (fun c => Ascii.eqb c ".")
           (fun c => Ascii.eqb (lower c) "s" || Ascii.eqb (lower c) "e") name
  = false ->
  lower s = "s"%char -> lower e = "e"%char ->
  season <> [] -> forallb is_digit season = true ->
  digits <> [] -> forallb is_digit digits = true ->
  head_is is_digit tail = false ->
  re_search (Pattern subgroup_re true) (fst (splitext filename)) = None ->
  extract_anime_info filename = Ok (clean_name (strip name), Some digits).
Proof.
  intros E Nb Nl Fo Hs He N1 D1 N2 D2 Ht R1.
  destruct (dotted_re_hit None no_marks name s season e digits tail
              Nb Nl Fo Hs He N1 D1 N2 D2 Ht) as (fin & Run & M1 & M2).
  apply (extract_by_rule filename
           (map (fun r => Pattern r true) [subgroup_re])
           (Pattern dotted_re true)
           (map (fun r => Pattern r true) [episode_re; dash_re; trailing_re])
           fin).
  - reflexivity.
  - repeat constructor; assumption.
  - rewrite E, match_here_run. exact Run.
  - simpl. lia.
  - exact M1.
  - exact M2.
  - exact N2.
Qed.

Lemma dotted_form_witness :
  extract_anime_info (lit "My.Anime_Name.s01E03.720p.mkv")
  = Ok (clean_name (strip (lit "My.Anime_Name")), Some (lit "03")).
Proof.
  apply (dotted_form (lit "My.Anime_Name.s01E03.720p.mkv")
           (lit "My.Anime_Name") "s"%char (lit "01") "E"%char (lit "03")
           (lit ".720p"));
    try reflexivity; discriminate.
Defined.

Lemma lit_s_miss c :
  lower c = lower "E" -> cmatch true (CLit "S") c = false.
Proof. intros H. cbn [cmatch]. rewrite H. reflexivity. Qed.

(** The second rule on a name, a dot, the word "Episode", a dot, digits. *)
Lemma dotted_re_hit_word p name W digits tail :
  name <> [] ->
  existsb (Ascii.eqb newline) name = false ->
  followed (fun c => Ascii.eqb c ".")
           (fun c => Ascii.eqb (lower c) "s" || Ascii.eqb (lower c) "e") name
  = false ->
  str_lower W = lit "episode" ->
  digits <> [] -> forallb is_digit digits = true ->
  head_is is_digit tail = false ->
  exists fin,
    run true dotted_re
        (MState p (name ++ "."%char :: W ++ "."%char :: digits ++ tail)
                no_marks)
        (fun st => Some st) = Some fin
    /\ marks fin 1 = Some name /\ marks fin 2 = None
    /\ marks fin 3 = Some digits.
Proof.
  intros Nb Nl Fo HW Ng Dg Ht.
  destruct (episode_word_chars W HW)
    as (w1 & w2 & w3 & w4 & w5 & w6 & w7 & -> & H1 & H2 & H3 & H4 & H5 & H6
        & H7).
  eexists. split; [|split; [|split]].
  - rewrite dotted_re_unfold, word_episode_unfold.
    change (run true (Seq (Grp 1 (lazy_plus CAny)) ?R) (MState ?p0 ?s0 ?g0) ?k)
      with (rep_lazy true CAny 1 s0 p0 g0 0
              (fun st' =>
                 run true R
                     (set_mark 1 (consumed (MState p0 s0 g0) st') st') k)).
    apply rep_lazy_hit.
    + apply forallb_any, Nl.
    + destruct name; [congruence|simpl; lia].
    + intros a b E Nb'. cbn [set_mark rest prev marks app].
      rewrite <- word_episode_unfold.
      apply (dotted_inside_miss _ _ name a b); auto.
    + cbn [set_mark rest prev marks]. unfold consumed. cbn [rest].
      rewrite firstn_prefix.
      cbn [run chr plus rest prev marks set_mark app].
      rewrite lit_dot, Ascii.eqb_refl.
      rewrite (lit_s_miss w1 H1).
      rewrite (lit_ci _ _ H1), (lit_ci _ _ H2), (lit_ci _ _ H3),
        (lit_ci _ _ H4), (lit_ci _ _ H5), (lit_ci _ _ H6), (lit_ci _ _ H7).
      cbv beta iota. cbn [rest prev marks].
      apply rep_greedy_hit; [exact Dg|exact Ht| |].
      * destruct digits; [congruence|simpl; lia].
      * cbn [set_mark rest prev marks]. unfold consumed. cbn [rest].
        rewrite firstn_prefix. reflexivity.
  - reflexivity.
  - reflexivity.
  - reflexivity.
Qed.

Lemma on_match_value3 m captured digits :
  3 <= m_groups m ->
  m_marks m 1 = Some captured -> m_marks m 2 = None ->
  m_marks m 3 = Some digits ->
  on_match m = Ok (clean_name (strip captured), Some digits).
Proof.
  intros G M1 M2 M3. unfold on_match, group_or, group.
  destruct (Nat.leb_spec 1 (m_groups m)); [|lia].
  destruct (Nat.leb_spec 2 (m_groups m)); [|lia].
  destruct (Nat.leb_spec 3 (m_groups m)); [|lia].
  simpl. rewrite M1. simpl. rewrite M2. simpl. rewrite M3. reflexivity.
Qed.

(** X16. The form "Anime.Name.Episode.01" (second rule, second
    alternative).  Let the stem be a name, a dot, the word "Episode" in any
    mix of cases, a dot, digits, and a rest, with the name as in the form
    "Anime.Name.S01E01".  If the first rule does not match the stem, the
    result is the clean-up of the name and exactly those digits, which
    come from the third group, the second being None. *)
Theorem dotted_word_form filename name W digits tail :
  fst (splitext filename)
  = name ++ "."%char :: W ++ "."%char :: digits ++ tail ->
  name <> [] ->
  existsb (Ascii.eqb newline) name = false ->
  followed (fun c => Ascii.eqb c ".")
           (fun c => Ascii.eqb (lower c) "s" || Ascii.eqb (lower c) "e") name
  = false ->
  str_lower W = lit "episode" ->
  digits <> [] -> forallb is_digit digits = true ->
  head_is is_digit tail = false ->
  re_search (Pattern subgroup_re true) (fst (splitext filename)) = None ->
  extract_anime_info filename = Ok (clean_name (strip name), Some digits)
  /\ exists m,
       first_match patterns (fst (splitext filename)) = Some m
       /\ group m 2 = Ok None /\ group m 3 = Ok (Some digits).
Proof.
  intros E Nb Nl Fo HW Ng Dg Ht R1.
  destruct (dotted_re_hit_word None name W digits tail Nb Nl Fo HW Ng Dg Ht)
    as (fin & Run & M1 & M2 & M3).
  assert (H : match_here (Pattern dotted_re true) None
                (fst (splitext filename)) false = Some fin)
    by (rewrite E, match_here_run; exact Run).
  set (m := RMatch []
              (firstn (length (fst (splitext filename)) - length (rest fin))
                      (fst (splitext filename)))
              (rest fin) (marks fin) 3).
  assert (F : first_match patterns (fst (splitext filename)) = Some m).
  { apply (first_match_after
             (map (fun r => Pattern r true) [subgroup_re])
             (Pattern dotted_re true)
             (map (fun r => Pattern r true) [episode_re; dash_re; trailing_re])).
    - repeat constructor; assumption.
    - unfold re_search. rewrite (search_from_here _ _ _ _ H). reflexivity. }
  split.
  - unfold extract_anime_info. cbv zeta.
    rewrite for_patterns_first_match, F.
    apply on_match_value3; [simpl; lia|exact M1|exact M2|exact M3].
  - exists m. split; [exact F|]. unfold group. simpl.
    rewrite M2, M3. split; reflexivity.
Qed.

Lemma dotted_word_form_witness :
  extract_anime_info (lit "Anime.Name.EPISODE.7.mkv")
  = Ok (clean_name (strip (lit "Anime.Name")), Some (lit "7")).
Proof.
  apply (dotted_word_form (lit "Anime.Name.EPISODE.7.mkv")
           (lit "Anime.Name") (lit "EPISODE") (lit "7") []);
    try reflexivity; discriminate.
Defined.
